(** * drone-runner-kube: step graph helpers and the exec step filter

    A shallow embedding of
    - [engine/compiler/util.go]: the run-policy predicates, [isGraph], the
      serial and clone dependency passes, the conversion of a step
      environment into literals and secret references, the check for
      restricted variables, [max], [min] and [firstNonZero];
    - [command/exec.go]: the megabyte conversion at the head of
      [execCommand.run], the construction of the compiler, the
      include / exclude step filter and the creation of the stage records.

    Go values are modelled as follows.
    - [int64] is [Z]; the only arithmetic in the embedded code is the
      multiplication of [execCommand.run], whose wrap-around is written out
      in [int64.mul].
    - [[]string] is [list string]; a nil slice and an empty slice both have
      length 0 and are both the empty list.
    - A Go map is a [gmap]; a [range] loop over it runs over its entries
      in an order that Go leaves open, so the loops take the list of
      entries as an argument and the properties hold for every order.
    - [spec.Steps] is a slice of pointers to steps.  The compiler allocates
      one step object per pipeline step, so the pointers are pairwise
      distinct and a [range] loop that assigns to fields of [step] is a
      pass over a list of records.
    - The declarations of [engine.Step] and [engine.Spec] are outside the
      two embedded files.  The fields the code reads or writes are record
      fields here; all remaining fields are carried by a payload of an
      arbitrary type ([StepRest], [SpecRest]). *)

From Stdlib Require Import ZArith.
From stdpp Require Import base list strings.
From stdpp Require Import gmap.

Local Open Scope Z_scope.

(** ** Machine integers *)

Module int64.

Definition min_int : Z := - 2 ^ 63.
Definition max_int : Z := 2 ^ 63 - 1.

Definition in_range (z : Z) : Prop := min_int <= z <= max_int.

(** Two's complement reduction of an integer to 64 bits. *)
Definition wrap (z : Z) : Z := (z + 2 ^ 63) mod 2 ^ 64 - 2 ^ 63.

(** Go's [*] on [int64]. *)
Definition mul (a b : Z) : Z := wrap (a * b).

End int64.

(** ** runner-go: run policies *)

Module runtime.

Inductive RunPolicy : Set :=
| RunOnSuccess
| RunOnFailure
| RunAlways
| RunNever.

(** [runtime.ErrPolicy]: what the failure of a step does to the stage. *)
Inductive ErrPolicy : Set :=
| ErrFail
| ErrFailFast
| ErrIgnore.

#[global] Instance RunPolicy_eq_dec : EqDecision RunPolicy.
Proof. solve_decision. Defined.

End runtime.

(** ** runner-go: status conditions *)

Module manifest.

(** [manifest.Condition]: the include and exclude patterns of one
    [when] clause. *)
Record Condition : Set := mkCondition {
  Include : list string;
  Exclude : list string;
}.

(** A matcher for conditions whose patterns carry no glob characters: a
    pattern matches exactly the string it spells.  It instantiates the
    [Match] parameter of the compiler section on concrete inputs. *)
Definition matches (patterns : list string) (v : string) : bool :=
  existsb (String.eqb v) patterns.

Definition exactMatch (c : Condition) (v : string) : bool :=
  if matches (Exclude c) v then false
  else if matches (Include c) v then true
  else if decide (length (Include c) = 0%nat) then true
  else false.

(** [manifest.Variable], named [Var] because [Variable] is a keyword: an
    environment variable of a step is a literal [Value] or the name of a
    secret, [Secret]. *)
Record Var : Set := mkVar {
  Value : string;
  Secret : string;
}.

End manifest.

(** ** engine/resource: the declarative step *)

Module resource.

(** Of [resource.Step] only [When.Status] is read by the embedded code. *)
Record Conditions : Set := mkConditions {
  Status : manifest.Condition;
}.

Record Step : Set := mkStep {
  When : Conditions;
}.

End resource.

(** ** engine: the compiled step and the compiled spec *)

Module engine.

Record Step (StepRest : Type) : Type := mkStep {
  Name : string;
  DependsOn : list string;
  RunPolicy : runtime.RunPolicy;
  StepOther : StepRest;
}.
Arguments mkStep {StepRest} _ _ _ _.
Arguments Name {StepRest} _.
Arguments DependsOn {StepRest} _.
Arguments RunPolicy {StepRest} _.
Arguments StepOther {StepRest} _.

Record Spec (StepRest SpecRest : Type) : Type := mkSpec {
  Steps : list (Step StepRest);
  SpecOther : SpecRest;
}.
Arguments mkSpec {StepRest SpecRest} _ _.
Arguments Steps {StepRest SpecRest} _.
Arguments SpecOther {StepRest SpecRest} _.

(** [step.DependsOn = deps] *)
Definition setDependsOn {A} (deps : list string) (step : Step A) : Step A :=
  mkStep (Name step) deps (RunPolicy step) (StepOther step).

(** [step.RunPolicy = p] *)
Definition setRunPolicy {A} (p : runtime.RunPolicy) (step : Step A) : Step A :=
  mkStep (Name step) (DependsOn step) p (StepOther step).

(** The steps of a spec replaced, as after a loop that has assigned to
    fields of the steps the slice points to. *)
Definition withSteps {A B} (steps : list (Step A)) (spec : Spec A B) : Spec A B :=
  mkSpec steps (SpecOther spec).

(** [engine.SecretVar], the two fields that [convertSecretEnv] sets: the
    secret [Name] is exposed to the step as the environment variable
    [Env]. *)
Module SecretVar.

Record t : Set := mk {
  Name : string;
  Env : string;
}.

End SecretVar.

End engine.

(** ** Go's strings package on ASCII input *)

Module gostrings.

(** The ASCII white space of [strings.TrimSpace]: tab, line feed, vertical
    tab, form feed, carriage return and space. *)
Definition isSpace (c : Ascii.ascii) : bool :=
  let n := Ascii.nat_of_ascii c in
  ((9 <=? n) && (n <=? 13) || (n =? 32))%nat.

Fixpoint trimLeft (s : string) : string :=
  match s with
  | EmptyString => EmptyString
  | String c rest => if isSpace c then trimLeft rest else s
  end.

(** [strings.TrimSpace] on a string of ASCII characters.  It instantiates
    the [TrimSpace] parameter of the compiler section on concrete
    inputs. *)
Definition asciiTrimSpace (s : string) : string :=
  String.rev (trimLeft (String.rev (trimLeft s))).

End gostrings.

(** ** drone-go: the step and stage records of a build *)

Module drone.

(** [drone.Step], the fields that [execCommand.run] sets; the literal
    leaves every other field at its zero value. *)
Record Step : Set := mkStep {
  StageID : Z;
  Number : Z;
  Name : string;
  Status : string;
  ErrIgnore : bool;
}.

(** [drone.Stage], the fields that [execCommand.run] reads or writes. *)
Record Stage : Set := mkStage {
  ID : Z;
  Steps : list Step;
}.

End drone.

(** ** engine/compiler/util.go *)

Module compiler.

Import engine.

Section RunPolicyPredicates.

(** [Condition.Match] and the two status constants belong to the
    libraries the file imports; the predicates are embedded over an
    arbitrary matcher and arbitrary constants. *)
Variable Match : manifest.Condition -> string -> bool.
Variables StatusFailing StatusPassing : string.

Definition isRunAlways (step : resource.Step) : bool :=
  let status := resource.Status (resource.When step) in
  if decide (length (manifest.Include status) = 0%nat
             /\ length (manifest.Exclude status) = 0%nat)
  then false
  else Match status StatusFailing && Match status StatusPassing.

Definition isRunOnFailure (step : resource.Step) : bool :=
  let status := resource.Status (resource.When step) in
  if decide (length (manifest.Include status) = 0%nat
             /\ length (manifest.Exclude status) = 0%nat)
  then false
  else Match status StatusFailing.

(** Modelled from the spec: the run-policy resolver of the step
    compiler, which is outside the embedded files.  Section 4.1: the
    "always" check is made first, then the "on failure" check, and a
    step that passes neither runs on success only. *)
Definition resolveRunPolicy (step : resource.Step) : runtime.RunPolicy :=
  if isRunAlways step then runtime.RunAlways
  else if isRunOnFailure step then runtime.RunOnFailure
  else runtime.RunOnSuccess.

End RunPolicyPredicates.

(** [isGraph]: the [range] loop returns at the first step with a
    dependency. *)
Fixpoint isGraphLoop {A} (steps : list (Step A)) : bool :=
  match steps with
  | [] => false
  | step :: rest =>
      if decide (0 < length (DependsOn step))%nat then true
      else isGraphLoop rest
  end.

Definition isGraph {A B} (spec : Spec A B) : bool := isGraphLoop (Steps spec).

(** [configureSerial]: [prev] is [None] for Go's nil pointer.  After the
    assignment [prev] points to the step just visited. *)
Fixpoint configureSerialLoop {A} (prev : option (Step A)) (steps : list (Step A))
  : list (Step A) :=
  match steps with
  | [] => []
  | step :: rest =>
      let step' :=
        match prev with
        | Some p => setDependsOn [Name p] step
        | None => step
        end in
      step' :: configureSerialLoop (Some step') rest
  end.

Definition configureSerial {A B} (spec : Spec A B) : Spec A B :=
  withSteps (configureSerialLoop None (Steps spec)) spec.

(** [configureCloneDeps]: the body of the loop for one step. *)
Definition configureCloneDep {A} (step : Step A) : Step A :=
  if String.eqb (Name step) "clone" then step
  else if decide (length (DependsOn step) = 0%nat)
       then setDependsOn ["clone"] step
       else step.

Definition configureCloneDeps {A B} (spec : Spec A B) : Spec A B :=
  withSteps (configureCloneDep <$> Steps spec) spec.

(** [removeCloneDeps]: the first loop returns from the function at a step
    named "clone". *)
Fixpoint hasCloneStep {A} (steps : list (Step A)) : bool :=
  match steps with
  | [] => false
  | step :: rest =>
      if String.eqb (Name step) "clone" then true else hasCloneStep rest
  end.

(** The body of the second loop: [len(step.DependsOn) == 1 &&
    step.DependsOn[0] == "clone"]. *)
Definition removeCloneDep {A} (step : Step A) : Step A :=
  match DependsOn step with
  | [dep] => if String.eqb dep "clone" then setDependsOn [] step else step
  | _ => step
  end.

Definition removeCloneDeps {A B} (spec : Spec A B) : Spec A B :=
  if hasCloneStep (Steps spec) then spec
  else withSteps (removeCloneDep <$> Steps spec) spec.

Fixpoint firstNonZero (values : list Z) : Z :=
  match values with
  | [] => 0
  | value :: rest => if 0 <? value then value else firstNonZero rest
  end.

(** The first non-zero value of a list, or 0: the rule in the words of
    the specification, to compare [firstNonZero] with. *)
Fixpoint firstNonZeroSpec (values : list Z) : Z :=
  match values with
  | [] => 0
  | value :: rest => if decide (value = 0) then firstNonZeroSpec rest else value
  end.

(** [compiler.ResourceObject] and [compiler.Resources], as far as
    [command/exec.go] uses their fields. *)
Record ResourceObject : Set := mkResourceObject {
  CPU : Z;
  Memory : Z;
  GPU : Z;
}.

Record Resources : Set := mkResources {
  Limits : ResourceObject;
  MinRequests : ResourceObject;
}.

(** The resource fields of [compiler.Compiler] that [execCommand.run]
    fills in. *)
Record Compiler : Set := mkCompiler {
  CompilerResources : Resources;
  CompilerStageRequests : ResourceObject;
}.

Definition max (a b : Z) : Z := if b <? a then a else b.

Definition min (a b : Z) : Z := if a <? b then a else b.

(** list of restricted variables *)
Definition restrictedVars : list string :=
  ["XDG_RUNTIME_DIR"; "DOCKER_OPTS"; "DOCKER_HOST"; "PATH"; "HOME"].

(** A Go map from names to [*manifest.Variable] is a finite map to
    [option manifest.Var], where [None] is the nil pointer: a key can
    be present and bound to nil. *)
Abbreviation Environ := (gmap string (option manifest.Var)).

(** The loop of [isRestrictedVariable] over a list of names:
    [_, ok := env[name]] asks whether the key is present. *)
Fixpoint isRestrictedLoop (names : list string) (env : Environ) : bool :=
  match names with
  | [] => false
  | name :: rest =>
      if decide (is_Some (env !! name)) then true
      else isRestrictedLoop rest env
  end.

Definition isRestrictedVariable (env : Environ) : bool :=
  isRestrictedLoop restrictedVars env.

Section Environment.

(** [strings.TrimSpace] is library code and a parameter here. *)
Variable TrimSpace : string -> string.

(** One round of the loop of [convertStaticEnv], at the entry [k], [v]. *)
Definition staticEnvStep (dst : gmap string string)
  (k : string) (v : option manifest.Var) : gmap string string :=
  match v with
  | None => dst
  | Some var =>
      if decide (TrimSpace (manifest.Secret var) = "")
      then <[k := manifest.Value var]> dst
      else dst
  end.

(** The loop of [convertStaticEnv] over the entries of [src] in the order
    in which [range] yields them. *)
Fixpoint convertStaticEnvLoop (dst : gmap string string)
  (entries : list (string * option manifest.Var)) : gmap string string :=
  match entries with
  | [] => dst
  | (k, v) :: rest => convertStaticEnvLoop (staticEnvStep dst k v) rest
  end.

(** Go leaves the order of [range] over a map open; [map_to_list] is
    one such order, and the properties below are stated for every order. *)
Definition convertStaticEnv (src : Environ) : gmap string string :=
  convertStaticEnvLoop ∅ (map_to_list src).

(** One round of the loop of [convertSecretEnv]. *)
Definition secretEnvStep (dst : list SecretVar.t)
  (k : string) (v : option manifest.Var) : list SecretVar.t :=
  match v with
  | None => dst
  | Some var =>
      if decide (TrimSpace (manifest.Secret var) <> "")
      then dst ++ [SecretVar.mk (manifest.Secret var) k]
      else dst
  end.

Fixpoint convertSecretEnvLoop (dst : list SecretVar.t)
  (entries : list (string * option manifest.Var)) : list SecretVar.t :=
  match entries with
  | [] => dst
  | (k, v) :: rest => convertSecretEnvLoop (secretEnvStep dst k v) rest
  end.

Definition convertSecretEnv (src : Environ) : list SecretVar.t :=
  convertSecretEnvLoop [] (map_to_list src).

End Environment.

End compiler.


(** ** command/exec.go *)

Module command.

Import engine.

(** The fields of [execCommand] that the embedded parts of [run] use. *)
Record execCommand : Set := mkExecCommand {
  Include : list string;
  Exclude : list string;
  Resource : compiler.Resources;
  StageRequests : compiler.ResourceObject;
}.

(** [obj.Memory *= 1024 * 1024] *)
Definition scaleMemory (obj : compiler.ResourceObject) : compiler.ResourceObject :=
  compiler.mkResourceObject
    (compiler.CPU obj)
    (int64.mul (compiler.Memory obj) (1024 * 1024))
    (compiler.GPU obj).

(** The first three statements of [run]: memory amounts are given in
    megabytes and converted to bytes. *)
Definition convertMemory (c : execCommand) : execCommand :=
  mkExecCommand
    (Include c)
    (Exclude c)
    (compiler.mkResources
       (scaleMemory (compiler.Limits (Resource c)))
       (scaleMemory (compiler.MinRequests (Resource c))))
    (scaleMemory (StageRequests c)).

(** The resource fields of the [compiler.Compiler] literal of [run]. *)
Definition newCompiler (c : execCommand) : compiler.Compiler :=
  compiler.mkCompiler
    (compiler.mkResources
       (compiler.Limits (Resource c))
       (compiler.MinRequests (Resource c)))
    (StageRequests c).

(** The compiler that [run] builds from the command as the flags filled
    it in. *)
Definition runCompiler (c : execCommand) : compiler.Compiler :=
  newCompiler (convertMemory c).

(** The inner loop of both filter blocks: is [name] one of [names]?  The
    loop leaves at the first equal entry. *)
Fixpoint named (name : string) (names : list string) : bool :=
  match names with
  | [] => false
  | n :: rest => if String.eqb name n then true else named name rest
  end.

(** The body of loop [I]. *)
Definition includeStep {A} (include : list string) (step : Step A) : Step A :=
  if String.eqb (Name step) "clone" then step
  else if named (Name step) include then step
  else setRunPolicy runtime.RunNever step.

(** The include block: [if len(c.Include) > 0 { ... }]. *)
Definition includeSteps {A} (include : list string) (steps : list (Step A))
  : list (Step A) :=
  if decide (0 < length include)%nat then includeStep include <$> steps
  else steps.

(** The body of loop [E]. *)
Definition excludeStep {A} (exclude : list string) (step : Step A) : Step A :=
  if String.eqb (Name step) "clone" then step
  else if named (Name step) exclude then setRunPolicy runtime.RunNever step
  else step.

(** The exclude block: [if len(c.Exclude) > 0 { ... }]. *)
Definition excludeSteps {A} (exclude : list string) (steps : list (Step A))
  : list (Step A) :=
  if decide (0 < length exclude)%nat then excludeStep exclude <$> steps
  else steps.

(** The step filter of [run]: the include block, then the exclude block,
    both on the same compiled spec. *)
Definition filterSteps {A B} (include exclude : list string) (spec : Spec A B)
  : Spec A B :=
  withSteps (excludeSteps exclude (includeSteps include (Steps spec))) spec.

Section StageSteps.

Context {A : Type}.

(** [step.ErrPolicy] is a field of [engine.Step] that the payload carries,
    and [drone.StatusPending] is a constant of the library. *)
Variable ErrPolicy : A -> runtime.ErrPolicy.
Variable StatusPending : string.

(** The [drone.Step] literal of [run]. *)
Definition newStageStep (stage : drone.Stage) (step : Step A) : drone.Step :=
  drone.mkStep
    (drone.ID stage)
    (Z.of_nat (length (drone.Steps stage)) + 1)
    (Name step)
    StatusPending
    (match ErrPolicy (StepOther step) with
     | runtime.ErrIgnore => true
     | _ => false
     end).

(** "create a step object for each pipeline step": the loop skips the
    steps that never run and appends a record for each other step. *)
Fixpoint createStageSteps (stage : drone.Stage) (steps : list (Step A))
  : drone.Stage :=
  match steps with
  | [] => stage
  | step :: rest =>
      match RunPolicy step with
      | runtime.RunNever => createStageSteps stage rest
      | _ =>
          createStageSteps
            (drone.mkStage (drone.ID stage)
               (drone.Steps stage ++ [newStageStep stage step]))
            rest
      end
  end.

End StageSteps.

End command.

(** ** Sample data *)

Module sample.

Import engine.

Definition step (name : string) (deps : list string) : Step unit :=
  mkStep name deps runtime.RunOnSuccess tt.

Definition spec (steps : list (Step unit)) : Spec unit unit := mkSpec steps tt.

(** The compiled set of the filter examples. *)
Definition pipeline : Spec unit unit :=
  spec [step "clone" []; step "build" []; step "test" []; step "deploy" []].

(** A compiled set with no checkout step and no declared dependency. *)
Definition serial : Spec unit unit :=
  spec [step "build" []; step "test" []; step "deploy" []].

(** A compiled set with no checkout step whose steps still name it. *)
Definition orphans : Spec unit unit :=
  spec [step "build" ["clone"]; step "test" ["clone"; "build"]].

(** A step environment: a literal, a secret reference and a nil binding. *)
Definition environ : compiler.Environ :=
  <["GOPATH" := Some (manifest.mkVar "/go" " ")]>
    (<["TOKEN" := Some (manifest.mkVar "" " token ")]>
       (<["UNSET" := None]> ∅)).

(** The entries of [environ] in one of the orders a [range] can take. *)
Definition environOrder : list (string * option manifest.Var) :=
  [("TOKEN", Some (manifest.mkVar "" " token "));
   ("UNSET", None);
   ("GOPATH", Some (manifest.mkVar "/go" " "))].

Definition condition (include exclude : list string) : resource.Step :=
  resource.mkStep (resource.mkConditions (manifest.mkCondition include exclude)).

End sample.

(** * Properties *)

(** ** Machine integers *)

Lemma int64_wrap_in_range (z : Z) : int64.in_range z -> int64.wrap z = z.
Proof.
  unfold int64.in_range, int64.min_int, int64.max_int, int64.wrap.
  intros Hz. rewrite Z.mod_small; lia.
Qed.


Lemma int64_mul_megabyte (m : Z) :
  - 2 ^ 43 <= m < 2 ^ 43 -> int64.mul m (1024 * 1024) = m * 1048576.
Proof.
  intros Hm. unfold int64.mul. apply int64_wrap_in_range.
  unfold int64.in_range, int64.min_int, int64.max_int. lia.
Qed.

(** ** Names in a list *)

Lemma named_elem_of (name : string) (names : list string) :
  command.named name names = true <-> name ∈ names.
Proof.
  induction names as [|n rest IH]; simpl.
  - split; [discriminate | intros H; inversion H].
  - destruct (String.eqb_spec name n) as [->|Hne].
    + split; [intros _; left | reflexivity].
    + rewrite IH. split; [intros H; by right |].
      intros H. inversion H; congruence.
Qed.

Lemma named_not_elem_of (name : string) (names : list string) :
  command.named name names = false <-> name ∉ names.
Proof.
  rewrite <- named_elem_of. destruct (command.named name names); split; congruence.
Qed.

Lemma length_zero_nil {A} (l : list A) : length l = 0%nat <-> l = [].
Proof. destruct l; split; (reflexivity || discriminate). Qed.

(** ** Run-policy predicates *)

Section RunPolicyFacts.

Variable Match : manifest.Condition -> string -> bool.
Variables StatusFailing StatusPassing : string.

Lemma isRunAlways_unfold (step : resource.Step) :
  let status := resource.Status (resource.When step) in
  compiler.isRunAlways Match StatusFailing StatusPassing step =
  if decide (manifest.Include status = [] /\ manifest.Exclude status = [])
  then false
  else Match status StatusFailing && Match status StatusPassing.
Proof.
  unfold compiler.isRunAlways. simpl.
  repeat case_decide; try reflexivity; exfalso;
    rewrite !length_zero_nil in *; tauto.
Qed.

Lemma isRunOnFailure_unfold (step : resource.Step) :
  let status := resource.Status (resource.When step) in
  compiler.isRunOnFailure Match StatusFailing step =
  if decide (manifest.Include status = [] /\ manifest.Exclude status = [])
  then false
  else Match status StatusFailing.
Proof.
  unfold compiler.isRunOnFailure. simpl.
  repeat case_decide; try reflexivity; exfalso;
    rewrite !length_zero_nil in *; tauto.
Qed.

(** C3: a step whose status condition has an empty include list and an
    empty exclude list is neither "run always" nor "run on failure",
    whatever the matcher answers, and the resolver gives it the default
    policy, run on success only. *)
Theorem empty_condition_runs_on_success (step : resource.Step) :
  manifest.Include (resource.Status (resource.When step)) = [] ->
  manifest.Exclude (resource.Status (resource.When step)) = [] ->
  compiler.isRunAlways Match StatusFailing StatusPassing step = false
  /\ compiler.isRunOnFailure Match StatusFailing step = false
  /\ compiler.resolveRunPolicy Match StatusFailing StatusPassing step
     = runtime.RunOnSuccess.
Proof.
  intros Hinc Hexc. unfold compiler.resolveRunPolicy.
  rewrite isRunAlways_unfold, isRunOnFailure_unfold. simpl.
  destruct (decide _) as [_|Hn]; [repeat split | tauto].
Qed.

(** C4: [isRunAlways] implies [isRunOnFailure]; and a step whose status
    condition is non-empty and matches both the failing and the passing
    status is "run always", so the resolver, which asks [isRunAlways]
    first, gives it the policy "always" and not "on failure". *)
Theorem always_shadows_on_failure (step : resource.Step) :
  (compiler.isRunAlways Match StatusFailing StatusPassing step = true ->
   compiler.isRunOnFailure Match StatusFailing step = true)
  /\ (manifest.Include (resource.Status (resource.When step)) <> []
      \/ manifest.Exclude (resource.Status (resource.When step)) <> [] ->
      Match (resource.Status (resource.When step)) StatusFailing = true ->
      Match (resource.Status (resource.When step)) StatusPassing = true ->
      compiler.isRunAlways Match StatusFailing StatusPassing step = true
      /\ compiler.isRunOnFailure Match StatusFailing step = true
      /\ compiler.resolveRunPolicy Match StatusFailing StatusPassing step
         = runtime.RunAlways
      /\ compiler.resolveRunPolicy Match StatusFailing StatusPassing step
         <> runtime.RunOnFailure).
Proof.
  unfold compiler.resolveRunPolicy.
  rewrite isRunAlways_unfold, isRunOnFailure_unfold. simpl.
  split.
  - destruct (decide _) as [_|_]; [discriminate |]. intros Hboth.
    apply andb_true_iff in Hboth. tauto.
  - intros Hne Hf Hp. destruct (decide _) as [Hnil|_]; [tauto |].
    rewrite Hf, Hp. simpl. repeat split; discriminate.
Qed.

End RunPolicyFacts.

Lemma empty_condition_runs_on_success_witness :
  compiler.isRunAlways manifest.exactMatch "failure" "success"
    (sample.condition [] []) = false
  /\ compiler.isRunOnFailure manifest.exactMatch "failure"
       (sample.condition [] []) = false
  /\ compiler.resolveRunPolicy manifest.exactMatch "failure" "success"
       (sample.condition [] []) = runtime.RunOnSuccess.
Proof.
  apply (empty_condition_runs_on_success manifest.exactMatch
           "failure" "success" (sample.condition [] [])); reflexivity.
Defined.

Lemma always_shadows_on_failure_witness :
  compiler.isRunAlways manifest.exactMatch "failure" "success"
    (sample.condition ["success"; "failure"] []) = true
  /\ compiler.isRunOnFailure manifest.exactMatch "failure"
       (sample.condition ["success"; "failure"] []) = true
  /\ compiler.resolveRunPolicy manifest.exactMatch "failure" "success"
       (sample.condition ["success"; "failure"] []) = runtime.RunAlways
  /\ compiler.resolveRunPolicy manifest.exactMatch "failure" "success"
       (sample.condition ["success"; "failure"] []) <> runtime.RunOnFailure.
Proof.
  apply (always_shadows_on_failure manifest.exactMatch "failure" "success"
           (sample.condition ["success"; "failure"] [])).
  - left. simpl. discriminate.
  - reflexivity.
  - reflexivity.
Defined.

(** ** Resource limits *)

Lemma firstNonZero_skip (pre rest : list Z) :
  Forall (fun x => x <= 0) pre ->
  compiler.firstNonZero (pre ++ rest) = compiler.firstNonZero rest.
Proof.
  induction 1 as [|x pre Hx _ IH]; simpl; [reflexivity |].
  destruct (Z.ltb_spec 0 x); [lia | exact IH].
Qed.

Lemma firstNonZero_cases (values : list Z) :
  (exists pre v post,
      values = pre ++ v :: post
      /\ Forall (fun x => x <= 0) pre
      /\ 0 < v
      /\ compiler.firstNonZero values = v)
  \/ (Forall (fun x => x <= 0) values /\ compiler.firstNonZero values = 0).
Proof.
  induction values as [|x rest IH]; simpl.
  - right. split; [constructor | reflexivity].
  - destruct (Z.ltb_spec 0 x) as [Hpos|Hle].
    + left. exists [], x, rest. repeat split; [constructor | assumption].
    + destruct IH as [(pre & v & post & -> & Hpre & Hv & Heq)|[Hall Heq]].
      * left. exists (x :: pre), v, post.
        repeat split; [by constructor | assumption | assumption].
      * right. split; [by constructor | assumption].
Qed.

Lemma firstNonZero_nonnegative (values : list Z) :
  Forall (fun x => 0 <= x) values ->
  compiler.firstNonZero values = compiler.firstNonZeroSpec values.
Proof.
  induction 1 as [|x rest Hx _ IH]; simpl; [reflexivity |].
  destruct (Z.ltb_spec 0 x); case_decide; first [lia | reflexivity | exact IH].
Qed.

(** C8, as the code has it: [firstNonZero] returns the first strictly
    positive candidate in priority order, and 0 when no candidate is
    positive; when no candidate is negative that is the first non-zero
    candidate, and [firstNonZero(0, 512, 256)] is 512. *)
Theorem firstNonZero_first_positive (values : list Z) :
  ((exists pre v post,
       values = pre ++ v :: post
       /\ Forall (fun x => x <= 0) pre
       /\ 0 < v
       /\ compiler.firstNonZero values = v)
   \/ (Forall (fun x => x <= 0) values /\ compiler.firstNonZero values = 0))
  /\ (Forall (fun x => 0 <= x) values ->
      compiler.firstNonZero values = compiler.firstNonZeroSpec values)
  /\ (Forall (fun x => x = 0) values -> compiler.firstNonZero values = 0)
  /\ compiler.firstNonZero [0; 512; 256] = 512.
Proof.
  split; [apply firstNonZero_cases |].
  split; [apply firstNonZero_nonnegative |].
  split; [| reflexivity].
  intros Hzero. rewrite <- (app_nil_r values).
  apply firstNonZero_skip. eapply Forall_impl; [exact Hzero |].
  simpl. intros x ->. lia.
Qed.

Lemma firstNonZero_first_positive_witness :
  compiler.firstNonZero [0; 0; 256] = compiler.firstNonZeroSpec [0; 0; 256]
  /\ compiler.firstNonZero [0; 0; 0] = 0.
Proof.
  split.
  - apply (firstNonZero_first_positive [0; 0; 256]).
    repeat constructor; lia.
  - apply (firstNonZero_first_positive [0; 0; 0]).
    repeat constructor.
Defined.

(** C8, as the claim words it, fails on a negative candidate: the first
    non-zero value of -1, 512, 256 is -1, and [firstNonZero] returns 512. *)
Lemma firstNonZero_negative_candidate :
  compiler.firstNonZeroSpec [-1; 512; 256] = -1
  /\ compiler.firstNonZero [-1; 512; 256] = 512
  /\ compiler.firstNonZero [-1; 512; 256]
     <> compiler.firstNonZeroSpec [-1; 512; 256].
Proof. repeat split. discriminate. Qed.

(** ** Memory amounts *)

(** C9: each of the three memory amounts of the command (container limit,
    container minimum request, stage request) reaches the compiler as the
    [int64] product of the flag value and 1,048,576, one multiplication per
    value; CPU and GPU amounts pass unchanged; and for a flag value below
    2^43 in magnitude the [int64] product is the exact product. *)
Theorem memory_megabytes_to_bytes (c : command.execCommand) :
  let comp := command.runCompiler c in
  compiler.Memory (compiler.Limits (compiler.CompilerResources comp))
     = int64.mul (compiler.Memory (compiler.Limits (command.Resource c))) 1048576
  /\ compiler.Memory (compiler.MinRequests (compiler.CompilerResources comp))
     = int64.mul (compiler.Memory (compiler.MinRequests (command.Resource c))) 1048576
  /\ compiler.Memory (compiler.CompilerStageRequests comp)
     = int64.mul (compiler.Memory (command.StageRequests c)) 1048576
  /\ (compiler.CPU (compiler.Limits (compiler.CompilerResources comp)),
      compiler.GPU (compiler.Limits (compiler.CompilerResources comp)))
     = (compiler.CPU (compiler.Limits (command.Resource c)),
        compiler.GPU (compiler.Limits (command.Resource c)))
  /\ (compiler.CPU (compiler.MinRequests (compiler.CompilerResources comp)),
      compiler.GPU (compiler.MinRequests (compiler.CompilerResources comp)))
     = (compiler.CPU (compiler.MinRequests (command.Resource c)),
        compiler.GPU (compiler.MinRequests (command.Resource c)))
  /\ (compiler.CPU (compiler.CompilerStageRequests comp),
      compiler.GPU (compiler.CompilerStageRequests comp))
     = (compiler.CPU (command.StageRequests c),
        compiler.GPU (command.StageRequests c))
  /\ (forall m, - 2 ^ 43 <= m < 2 ^ 43 -> int64.mul m 1048576 = m * 1048576).
Proof.
  simpl. repeat split. intros m Hm. by apply int64_mul_megabyte.
Qed.

Lemma memory_megabytes_to_bytes_witness :
  int64.mul 100 1048576 = 100 * 1048576.
Proof.
  apply (memory_megabytes_to_bytes
           (command.mkExecCommand [] []
              (compiler.mkResources
                 (compiler.mkResourceObject 0 0 0)
                 (compiler.mkResourceObject 1 4 0))
              (compiler.mkResourceObject 100 100 0))).
  lia.
Defined.

(** ** The serial chain *)

Section GraphPasses.

Import engine.

Context {A B : Type}.
Implicit Types (spec : Spec A B) (step s p t : Step A) (steps : list (Step A)).

Lemma configureSerialLoop_length steps (prev : option (Step A)) :
  length (compiler.configureSerialLoop prev steps) = length steps.
Proof.
  revert prev. induction steps as [|s rest IH]; intros prev; simpl;
    [reflexivity | by rewrite IH].
Qed.

Lemma configureSerialLoop_head s rest :
  compiler.configureSerialLoop None (s :: rest) !! 0%nat = Some s.
Proof. reflexivity. Qed.

Lemma configureSerialLoop_next steps :
  forall (prev : option (Step A)) (i : nat) p s,
    steps !! i = Some p ->
    steps !! S i = Some s ->
    compiler.configureSerialLoop prev steps !! S i
    = Some (setDependsOn [Name p] s).
Proof.
  induction steps as [|x rest IH]; intros prev i p s Hp Hs; [discriminate |].
  destruct i as [|j]; simpl in *.
  - injection Hp as ->. destruct rest as [|y rest']; [discriminate |].
    injection Hs as ->. simpl. by destruct prev.
  - by apply IH.
Qed.

Lemma configureSerialLoop_names steps (prev : option (Step A)) :
  Name <$> compiler.configureSerialLoop prev steps = Name <$> steps.
Proof.
  revert prev. induction steps as [|s rest IH]; intros prev; simpl;
    [reflexivity |].
  rewrite IH. by destruct prev.
Qed.

(** C5: on a compiled set in which no step declares a dependency,
    [configureSerial] keeps the number, order and names of the steps,
    leaves step 0 without a dependency, and gives each step at a position
    [i > 0] the one-element dependency list naming step [i - 1]. *)
Theorem configureSerial_chain spec :
  Forall (fun s => DependsOn s = []) (Steps spec) ->
  length (Steps (compiler.configureSerial spec)) = length (Steps spec)
  /\ Name <$> Steps (compiler.configureSerial spec) = Name <$> Steps spec
  /\ (forall s, Steps (compiler.configureSerial spec) !! 0%nat = Some s ->
        DependsOn s = [])
  /\ (forall i s, (0 < i)%nat ->
        Steps (compiler.configureSerial spec) !! i = Some s ->
        exists p, Steps spec !! (i - 1)%nat = Some p
                  /\ DependsOn s = [Name p]).
Proof.
  intros Hnone. unfold compiler.configureSerial. simpl.
  split; [apply configureSerialLoop_length |].
  split; [apply configureSerialLoop_names |].
  split.
  - intros s. destruct (Steps spec) as [|s0 rest]; [discriminate |].
    rewrite configureSerialLoop_head. intros [= <-].
    by inversion Hnone.
  - intros i s Hi Hs. destruct i as [|j]; [lia |].
    replace (S j - 1)%nat with j by lia.
    assert (Hlt : (S j < length (Steps spec))%nat).
    { rewrite <- (configureSerialLoop_length _ None).
      by eapply lookup_lt_Some. }
    destruct (lookup_lt_is_Some_2 (Steps spec) j) as [p Hp]; [lia |].
    destruct (lookup_lt_is_Some_2 (Steps spec) (S j)) as [s0 Hs0]; [lia |].
    exists p. split; [assumption |].
    rewrite (configureSerialLoop_next _ None j p s0 Hp Hs0) in Hs.
    by injection Hs as <-.
Qed.

(** ** The clone dependency *)

Lemma hasCloneStep_false steps :
  compiler.hasCloneStep steps = false <->
  forall t, t ∈ steps -> Name t <> "clone".
Proof.
  induction steps as [|x rest IH]; simpl.
  - split; [intros _ t Ht; inversion Ht | reflexivity].
  - destruct (String.eqb_spec (Name x) "clone") as [Heq|Hne].
    + split; [discriminate |]. intros Hall. exfalso.
      apply (Hall x); [left | assumption].
    + rewrite IH. split.
      * intros Hall t Ht. inversion Ht; subst; [assumption | by apply Hall].
      * intros Hall t Ht. apply Hall. by right.
Qed.

Lemma hasCloneStep_true steps :
  compiler.hasCloneStep steps = true <->
  exists t, t ∈ steps /\ Name t = "clone".
Proof.
  induction steps as [|x rest IH]; simpl.
  - split; [discriminate | intros (t & Ht & _); inversion Ht].
  - destruct (String.eqb_spec (Name x) "clone") as [Heq|Hne].
    + split; [| reflexivity]. intros _. exists x. split; [left | assumption].
    + rewrite IH. split.
      * intros (t & Ht & Hn). exists t. split; [by right | assumption].
      * intros (t & Ht & Hn). exists t. split; [| assumption].
        inversion Ht; subst; [contradiction | assumption].
Qed.

Lemma removeCloneDep_sole step :
  DependsOn step = ["clone"] ->
  compiler.removeCloneDep step = setDependsOn [] step.
Proof. unfold compiler.removeCloneDep. by intros ->. Qed.

Lemma removeCloneDep_other step :
  DependsOn step <> ["clone"] -> compiler.removeCloneDep step = step.
Proof.
  unfold compiler.removeCloneDep.
  destruct (DependsOn step) as [|dep [|dep' deps]]; try reflexivity.
  destruct (String.eqb_spec dep "clone") as [->|Hne]; [contradiction | reflexivity].
Qed.

Lemma removeCloneDep_name step :
  Name (compiler.removeCloneDep step) = Name step.
Proof.
  unfold compiler.removeCloneDep.
  destruct (DependsOn step) as [|dep [|dep' deps]]; try reflexivity.
  by destruct (String.eqb dep "clone").
Qed.

Lemma removeCloneDeps_lookup spec i :
  compiler.hasCloneStep (Steps spec) = false ->
  Steps (compiler.removeCloneDeps spec) !! i
  = compiler.removeCloneDep <$> Steps spec !! i.
Proof.
  intros Hno. unfold compiler.removeCloneDeps. rewrite Hno. simpl.
  apply list_lookup_fmap.
Qed.

Lemma removeCloneDeps_names spec :
  Name <$> Steps (compiler.removeCloneDeps spec) = Name <$> Steps spec.
Proof.
  unfold compiler.removeCloneDeps.
  destruct (compiler.hasCloneStep (Steps spec)); [reflexivity |]. simpl.
  rewrite <- list_fmap_compose. apply list_fmap_ext.
  intros _ s _. apply removeCloneDep_name.
Qed.

(** C6: [configureCloneDeps] gives every step that is not named "clone"
    and has no dependency the dependency list ["clone"] and leaves every
    step that has a dependency as it is; [removeCloneDeps], on a set with
    no step named "clone", empties the dependency list of every step whose
    list is exactly ["clone"], and changes nothing on a set that has a
    step named "clone". *)
Theorem clone_deps_injected_and_removed spec (i : nat) s :
  Steps spec !! i = Some s ->
  (Name s <> "clone" -> DependsOn s = [] ->
   Steps (compiler.configureCloneDeps spec) !! i
   = Some (setDependsOn ["clone"] s))
  /\ (DependsOn s <> [] ->
      Steps (compiler.configureCloneDeps spec) !! i = Some s)
  /\ ((forall t, t ∈ Steps spec -> Name t <> "clone") ->
      DependsOn s = ["clone"] ->
      Steps (compiler.removeCloneDeps spec) !! i = Some (setDependsOn [] s))
  /\ ((exists t, t ∈ Steps spec /\ Name t = "clone") ->
      compiler.removeCloneDeps spec = spec).
Proof.
  intros Hs. repeat split.
  - intros Hname Hdeps. unfold compiler.configureCloneDeps. simpl.
    rewrite list_lookup_fmap, Hs. simpl. unfold compiler.configureCloneDep.
    destruct (String.eqb_spec (Name s) "clone"); [contradiction |].
    rewrite Hdeps. reflexivity.
  - intros Hdeps. unfold compiler.configureCloneDeps. simpl.
    rewrite list_lookup_fmap, Hs. simpl. unfold compiler.configureCloneDep.
    destruct (String.eqb (Name s) "clone"); [reflexivity |].
    case_decide as Hlen; [| reflexivity].
    by apply length_zero_nil in Hlen.
  - intros Hno Hdeps. apply hasCloneStep_false in Hno.
    rewrite removeCloneDeps_lookup, Hs by assumption. simpl.
    by rewrite removeCloneDep_sole.
  - intros Hclone. apply hasCloneStep_true in Hclone.
    unfold compiler.removeCloneDeps. by rewrite Hclone.
Qed.

End GraphPasses.

Lemma configureSerial_chain_witness :
  length (engine.Steps (compiler.configureSerial sample.serial))
  = length (engine.Steps sample.serial)
  /\ engine.Name <$> engine.Steps (compiler.configureSerial sample.serial)
     = engine.Name <$> engine.Steps sample.serial
  /\ (forall s,
        engine.Steps (compiler.configureSerial sample.serial) !! 0%nat = Some s ->
        engine.DependsOn s = [])
  /\ (forall i s, (0 < i)%nat ->
        engine.Steps (compiler.configureSerial sample.serial) !! i = Some s ->
        exists p, engine.Steps sample.serial !! (i - 1)%nat = Some p
                  /\ engine.DependsOn s = [engine.Name p]).
Proof.
  apply (configureSerial_chain sample.serial).
  repeat constructor.
Defined.

Lemma clone_deps_injected_and_removed_witness :
  engine.Steps (compiler.configureCloneDeps sample.pipeline) !! 1%nat
  = Some (sample.step "build" ["clone"])
  /\ engine.Steps (compiler.removeCloneDeps sample.orphans) !! 0%nat
     = Some (sample.step "build" []).
Proof.
  split.
  - apply (clone_deps_injected_and_removed sample.pipeline 1
             (sample.step "build" [])); [reflexivity | discriminate | reflexivity].
  - apply (clone_deps_injected_and_removed sample.orphans 0
             (sample.step "build" ["clone"])); [reflexivity | | reflexivity].
    apply Forall_forall. repeat constructor; discriminate.
Defined.

(** C10: on a set with no step named "clone", [removeCloneDeps] leaves
    every step whose dependency list is not exactly ["clone"] as it is; a
    step that names "clone" next to another dependency therefore still
    names "clone" afterwards, although no step of the resulting set has
    that name; and such a set exists. *)
Theorem removeCloneDeps_leaves_dangling_clone :
  (forall (A B : Type) (spec : engine.Spec A B) (i : nat) (s : engine.Step A),
      (forall t, t ∈ engine.Steps spec -> engine.Name t <> "clone") ->
      engine.Steps spec !! i = Some s ->
      engine.DependsOn s <> ["clone"] ->
      engine.Steps (compiler.removeCloneDeps spec) !! i = Some s)
  /\ (forall (A B : Type) (spec : engine.Spec A B) (i : nat) (s : engine.Step A)
             (other : string),
         (forall t, t ∈ engine.Steps spec -> engine.Name t <> "clone") ->
         engine.Steps spec !! i = Some s ->
         "clone" ∈ engine.DependsOn s ->
         other ∈ engine.DependsOn s ->
         other <> "clone" ->
         engine.Steps (compiler.removeCloneDeps spec) !! i = Some s
         /\ forall t, t ∈ engine.Steps (compiler.removeCloneDeps spec) ->
                      engine.Name t <> "clone")
  /\ (exists (spec : engine.Spec unit unit) (s : engine.Step unit) (dep : string),
         s ∈ engine.Steps (compiler.removeCloneDeps spec)
         /\ dep ∈ engine.DependsOn s
         /\ forall t, t ∈ engine.Steps (compiler.removeCloneDeps spec) ->
                      engine.Name t <> dep).
Proof.
  assert (Hkeep : forall (A B : Type) (spec : engine.Spec A B) i s,
             (forall t, t ∈ engine.Steps spec -> engine.Name t <> "clone") ->
             engine.Steps spec !! i = Some s ->
             engine.DependsOn s <> ["clone"] ->
             engine.Steps (compiler.removeCloneDeps spec) !! i = Some s).
  { intros A B spec i s Hno Hs Hdeps. apply hasCloneStep_false in Hno.
    rewrite removeCloneDeps_lookup, Hs by assumption. simpl.
    by rewrite removeCloneDep_other. }
  split; [exact Hkeep |]. split.
  - intros A B spec i s other Hno Hs Hclone Hother Hne. split.
    + apply Hkeep; [assumption | assumption |].
      intros Hsole. rewrite Hsole in Hother.
      apply list_elem_of_singleton in Hother. contradiction.
    + intros t Ht Hname.
      assert (Hin : "clone" ∈ engine.Name <$> engine.Steps spec).
      { rewrite <- removeCloneDeps_names, <- Hname.
        by apply list_elem_of_fmap_2. }
      apply list_elem_of_fmap in Hin as (t0 & Heq & Ht0).
      by apply (Hno t0).
  - exists sample.orphans, (sample.step "test" ["clone"; "build"]), "clone".
    split; [| split].
    + right. left.
    + left.
    + apply Forall_forall. repeat constructor; discriminate.
Qed.

Lemma removeCloneDeps_leaves_dangling_clone_witness :
  engine.Steps (compiler.removeCloneDeps sample.orphans) !! 1%nat
  = Some (sample.step "test" ["clone"; "build"]).
Proof.
  destruct removeCloneDeps_leaves_dangling_clone as [Hkeep _].
  apply (Hkeep unit unit sample.orphans 1%nat
           (sample.step "test" ["clone"; "build"])).
  - apply Forall_forall. repeat constructor; discriminate.
  - reflexivity.
  - discriminate.
Defined.

(** ** The step filter *)

Section StepFilter.

Import engine.

Context {A B : Type}.
Implicit Types (spec : Spec A B) (step s t : Step A) (steps : list (Step A)).
Implicit Types (include exclude names : list string).

Lemma nonempty_length (names : list string) : names <> [] <-> (0 < length names)%nat.
Proof. destruct names; simpl; split; (congruence || lia). Qed.

Lemma includeSteps_nonempty include steps :
  include <> [] ->
  command.includeSteps include steps = command.includeStep include <$> steps.
Proof.
  intros Hne. unfold command.includeSteps.
  by rewrite decide_True by by apply nonempty_length.
Qed.

Lemma excludeSteps_nonempty exclude steps :
  exclude <> [] ->
  command.excludeSteps exclude steps = command.excludeStep exclude <$> steps.
Proof.
  intros Hne. unfold command.excludeSteps.
  by rewrite decide_True by by apply nonempty_length.
Qed.

Lemma excludeSteps_nil steps : command.excludeSteps [] steps = steps.
Proof. reflexivity. Qed.

Lemma includeSteps_nil steps : command.includeSteps [] steps = steps.
Proof. reflexivity. Qed.

Lemma includeStep_never include s :
  Name s <> "clone" -> Name s ∉ include ->
  command.includeStep include s = setRunPolicy runtime.RunNever s.
Proof.
  intros Hclone Hout. unfold command.includeStep.
  destruct (String.eqb_spec (Name s) "clone"); [contradiction |].
  apply named_not_elem_of in Hout. by rewrite Hout.
Qed.

Lemma includeStep_keep include s :
  Name s = "clone" \/ Name s ∈ include -> command.includeStep include s = s.
Proof.
  intros Hkeep. unfold command.includeStep.
  destruct (String.eqb_spec (Name s) "clone"); [reflexivity |].
  destruct Hkeep as [Hclone|Hin]; [contradiction |].
  apply named_elem_of in Hin. by rewrite Hin.
Qed.

Lemma includeStep_name include s :
  Name (command.includeStep include s) = Name s.
Proof.
  unfold command.includeStep.
  destruct (String.eqb (Name s) "clone"); [reflexivity |].
  by destruct (command.named (Name s) include).
Qed.

Lemma excludeStep_never exclude s :
  Name s <> "clone" -> Name s ∈ exclude ->
  command.excludeStep exclude s = setRunPolicy runtime.RunNever s.
Proof.
  intros Hclone Hin. unfold command.excludeStep.
  destruct (String.eqb_spec (Name s) "clone"); [contradiction |].
  apply named_elem_of in Hin. by rewrite Hin.
Qed.

Lemma excludeStep_keep exclude s :
  Name s = "clone" \/ Name s ∉ exclude -> command.excludeStep exclude s = s.
Proof.
  intros Hkeep. unfold command.excludeStep.
  destruct (String.eqb_spec (Name s) "clone"); [reflexivity |].
  destruct Hkeep as [Hclone|Hout]; [contradiction |].
  apply named_not_elem_of in Hout. by rewrite Hout.
Qed.

Lemma includeSteps_lookup include steps i :
  command.includeSteps include steps !! i
  = (if decide (0 < length include)%nat
     then command.includeStep include else id) <$> steps !! i.
Proof.
  unfold command.includeSteps. case_decide.
  - apply list_lookup_fmap.
  - by destruct (steps !! i).
Qed.

Lemma excludeSteps_lookup exclude steps i :
  command.excludeSteps exclude steps !! i
  = (if decide (0 < length exclude)%nat
     then command.excludeStep exclude else id) <$> steps !! i.
Proof.
  unfold command.excludeSteps. case_decide.
  - apply list_lookup_fmap.
  - by destruct (steps !! i).
Qed.

(** C7: whatever the include and exclude lists are, the filter keeps the
    number and order of the steps and the rest of the spec, and each step
    keeps its name, its [DependsOn] list and every other field; only the
    run policy can differ, and it is then "never". *)
Theorem filter_changes_run_policy_only spec include exclude :
  SpecOther (command.filterSteps include exclude spec) = SpecOther spec
  /\ length (Steps (command.filterSteps include exclude spec))
     = length (Steps spec)
  /\ forall i s,
      Steps spec !! i = Some s ->
      exists s',
        Steps (command.filterSteps include exclude spec) !! i = Some s'
        /\ Name s' = Name s
        /\ DependsOn s' = DependsOn s
        /\ StepOther s' = StepOther s
        /\ (RunPolicy s' = RunPolicy s \/ RunPolicy s' = runtime.RunNever).
Proof.
  unfold command.filterSteps. simpl. split; [reflexivity |]. split.
  - unfold command.excludeSteps, command.includeSteps.
    repeat case_decide; by rewrite ?length_fmap.
  - intros i s Hs. rewrite excludeSteps_lookup, includeSteps_lookup, Hs. simpl.
    eexists. split; [reflexivity |].
    unfold command.excludeStep, command.includeStep.
    repeat case_decide; simpl;
      repeat match goal with
             | |- context [if ?b then _ else _] => destruct b; simpl
             end; auto.
Qed.

(** C2, as the code has it: with a non-empty include list the filter
    gives every step that is not named "clone" and is missing from the
    include list the run policy "never", whatever the exclude list is, and
    changes nothing else of the step; a step named "clone", and a step that
    is in the include list and not in the exclude list, comes out as it
    went in; a step other than "clone" that the exclude list names gets
    the policy "never" even when the include list names it.  The include
    block on its own keeps every step that the include list names. *)
Theorem include_forces_others_to_never spec include exclude (i : nat) s :
  include <> [] ->
  Steps spec !! i = Some s ->
  (Name s <> "clone" -> Name s ∉ include ->
   Steps (command.filterSteps include exclude spec) !! i
   = Some (mkStep (Name s) (DependsOn s) runtime.RunNever (StepOther s)))
  /\ (Name s = "clone" \/ (Name s ∈ include /\ Name s ∉ exclude) ->
      Steps (command.filterSteps include exclude spec) !! i = Some s)
  /\ (Name s <> "clone" -> Name s ∈ exclude ->
      Steps (command.filterSteps include exclude spec) !! i
      = Some (mkStep (Name s) (DependsOn s) runtime.RunNever (StepOther s)))
  /\ (Name s <> "clone" -> Name s ∉ include ->
      command.includeSteps include (Steps spec) !! i
      = Some (mkStep (Name s) (DependsOn s) runtime.RunNever (StepOther s)))
  /\ (Name s = "clone" \/ Name s ∈ include ->
      command.includeSteps include (Steps spec) !! i = Some s).
Proof.
  intros Hne Hs.
  assert (Hblock : command.includeSteps include (Steps spec) !! i
                   = Some (command.includeStep include s)).
  { rewrite includeSteps_nonempty by assumption.
    by rewrite list_lookup_fmap, Hs. }
  assert (Hfilter : Steps (command.filterSteps include exclude spec) !! i
                    = Some ((if decide (0 < length exclude)%nat
                             then command.excludeStep exclude else id)
                              (command.includeStep include s))).
  { unfold command.filterSteps. simpl.
    by rewrite excludeSteps_lookup, Hblock. }
  assert (Hnever : forall t : Step A,
             Name t <> "clone" ->
             (if decide (0 < length exclude)%nat
              then command.excludeStep exclude else id)
               (setRunPolicy runtime.RunNever t)
             = mkStep (Name t) (DependsOn t) runtime.RunNever (StepOther t)).
  { intros t Hclone. case_decide; [| reflexivity].
    destruct (decide (Name t ∈ exclude)) as [Hin|Hout].
    - by rewrite excludeStep_never.
    - by rewrite excludeStep_keep by (right; exact Hout). }
  rewrite Hfilter, Hblock. repeat split.
  - intros Hclone Hout. rewrite includeStep_never by assumption.
    by rewrite Hnever.
  - intros Hkeep. rewrite includeStep_keep by tauto. f_equal.
    case_decide; [| reflexivity]. apply excludeStep_keep. tauto.
  - intros Hclone Hin.
    assert (Hlen : (0 < length exclude)%nat).
    { destruct exclude; [by apply elem_of_nil in Hin | simpl; lia]. }
    destruct (decide (Name s ∈ include)) as [Hinc|Hinc].
    + rewrite includeStep_keep by tauto. rewrite decide_True by assumption.
      by rewrite excludeStep_never.
    + rewrite includeStep_never by assumption. by rewrite Hnever.
  - intros Hclone Hout. by rewrite includeStep_never.
  - intros Hkeep. by rewrite includeStep_keep.
Qed.

(** What both blocks together do to one step, for non-empty lists. *)
Lemma filterSteps_both spec include exclude :
  include <> [] -> exclude <> [] ->
  Steps (command.filterSteps include exclude spec)
  = (fun s => if decide (Name s <> "clone"
                         /\ (Name s ∉ include \/ Name s ∈ exclude))
              then setRunPolicy runtime.RunNever s else s) <$> Steps spec.
Proof.
  intros Hinc Hexc. unfold command.filterSteps. simpl.
  rewrite includeSteps_nonempty, excludeSteps_nonempty by assumption.
  rewrite <- list_fmap_compose. apply list_fmap_ext. intros _ s _. simpl.
  destruct (decide (Name s = "clone")) as [Hclone|Hclone].
  { rewrite (includeStep_keep include s) by tauto.
    rewrite (excludeStep_keep exclude s) by tauto.
    by rewrite decide_False by tauto. }
  destruct (decide (Name s ∈ include)) as [Hin|Hout].
  - rewrite (includeStep_keep include s) by tauto.
    destruct (decide (Name s ∈ exclude)) as [Hex|Hex].
    + rewrite excludeStep_never by assumption. by rewrite decide_True by tauto.
    + rewrite excludeStep_keep by tauto. by rewrite decide_False by tauto.
  - rewrite includeStep_never by assumption.
    rewrite decide_True by tauto.
    destruct (decide (Name s ∈ exclude)) as [Hex|Hex].
    + by rewrite excludeStep_never.
    + by rewrite excludeStep_keep by (right; exact Hex).
Qed.

Lemma filterSteps_include_only spec include :
  include <> [] ->
  Steps (command.filterSteps include [] spec)
  = (fun s => if decide (Name s <> "clone" /\ Name s ∉ include)
              then setRunPolicy runtime.RunNever s else s) <$> Steps spec.
Proof.
  intros Hinc. unfold command.filterSteps. simpl.
  rewrite excludeSteps_nil, includeSteps_nonempty by assumption.
  apply list_fmap_ext. intros _ s _.
  case_decide as Hd.
  - destruct Hd as [Hclone Hout]. by apply includeStep_never.
  - apply includeStep_keep.
    destruct (decide (Name s = "clone")); [by left |].
    destruct (decide (Name s ∈ include)); [by right | tauto].
Qed.

Lemma fmap_eq_pointwise {X Y : Type} (f g : X -> Y) (l : list X) :
  f <$> l = g <$> l <-> forall x, x ∈ l -> f x = g x.
Proof.
  induction l as [|x l IH]; simpl.
  - split; [intros _ y Hy; inversion Hy | reflexivity].
  - split.
    + intros [= Hx Hl] y Hy. inversion Hy; subst; [assumption |].
      by apply IH.
    + intros Hall. f_equal; [apply Hall; left |].
      apply IH. intros y Hy. apply Hall. by right.
Qed.

(** C1, as the code has it: with a non-empty include list and a non-empty
    exclude list both are honored.  The exclude block runs on the steps
    the include block has left, so a step other than "clone" ends with
    the policy "never" when it is missing from the include list or named
    in the exclude list, and every other step is unchanged.  The run
    policies are those of filtering with the include list alone exactly
    when every step named in both lists is named "clone" or had the policy
    "never" already. *)
Theorem filter_honors_include_and_exclude spec include exclude :
  include <> [] ->
  exclude <> [] ->
  command.filterSteps include exclude spec
  = command.filterSteps [] exclude (command.filterSteps include [] spec)
  /\ (forall i s,
        Steps spec !! i = Some s ->
        Steps (command.filterSteps include exclude spec) !! i
        = Some (if decide (Name s <> "clone"
                           /\ (Name s ∉ include \/ Name s ∈ exclude))
                then setRunPolicy runtime.RunNever s else s))
  /\ (RunPolicy <$> Steps (command.filterSteps include exclude spec)
      = RunPolicy <$> Steps (command.filterSteps include [] spec)
      <-> forall s, s ∈ Steps spec ->
                    Name s ∈ include -> Name s ∈ exclude ->
                    Name s = "clone" \/ RunPolicy s = runtime.RunNever).
Proof.
  intros Hinc Hexc. split; [reflexivity |]. split.
  - intros i s Hs. rewrite filterSteps_both by assumption.
    by rewrite list_lookup_fmap, Hs.
  - rewrite filterSteps_both, filterSteps_include_only by assumption.
    rewrite <- !list_fmap_compose, fmap_eq_pointwise.
    split; intros Hall s Hs.
    + intros Hin Hex. specialize (Hall s Hs). simpl in Hall.
      destruct (decide (Name s = "clone")) as [Hclone|Hclone]; [by left |].
      right. rewrite decide_True in Hall by tauto.
      rewrite decide_False in Hall by tauto. simpl in Hall. congruence.
    + specialize (Hall s Hs). simpl.
      repeat case_decide; simpl; try reflexivity; try tauto.
      destruct (decide (Name s ∈ include)); [| tauto].
      destruct (decide (Name s ∈ exclude)); [| tauto].
      destruct Hall as [Hclone|Hnever]; [assumption | assumption | tauto | congruence].
Qed.

End StepFilter.

Lemma include_forces_others_to_never_witness :
  engine.Steps (command.filterSteps ["build"] ["deploy"] sample.pipeline) !! 2%nat
  = Some (engine.mkStep "test" [] runtime.RunNever tt)
  /\ engine.Steps (command.filterSteps ["build"] ["deploy"] sample.pipeline)
       !! 1%nat
     = Some (engine.mkStep "build" [] runtime.RunOnSuccess tt)
  /\ engine.Steps (command.filterSteps ["build"] ["deploy"] sample.pipeline)
       !! 3%nat
     = Some (engine.mkStep "deploy" [] runtime.RunNever tt).
Proof.
  assert (Hlist : ["build"] <> ([] : list string)) by discriminate.
  split; [| split].
  - destruct (include_forces_others_to_never sample.pipeline ["build"]
                ["deploy"] 2 (sample.step "test" []) Hlist eq_refl)
      as (Hmissing & _).
    apply Hmissing; [discriminate |].
    apply not_elem_of_cons. split; [discriminate | apply not_elem_of_nil].
  - destruct (include_forces_others_to_never sample.pipeline ["build"]
                ["deploy"] 1 (sample.step "build" []) Hlist eq_refl)
      as (_ & Hkept & _).
    apply Hkept. right. split; [left |].
    apply not_elem_of_cons. split; [discriminate | apply not_elem_of_nil].
  - destruct (include_forces_others_to_never sample.pipeline ["build"]
                ["deploy"] 3 (sample.step "deploy" []) Hlist eq_refl)
      as (_ & _ & Hexcluded & _).
    apply Hexcluded; [discriminate | left].
Defined.

(** C2, as the claim words it, fails: the step test is named in the
    include list build, test and had the policy "on success", yet the
    filter returns it with the policy "never" when the exclude list names
    it too. *)
Lemma included_step_forced_to_never :
  "test" ∈ ["build"; "test"]
  /\ engine.Steps sample.pipeline !! 2%nat
     = Some (engine.mkStep "test" [] runtime.RunOnSuccess tt)
  /\ engine.Steps
       (command.filterSteps ["build"; "test"] ["test"] sample.pipeline) !! 2%nat
     = Some (engine.mkStep "test" [] runtime.RunNever tt)
  /\ engine.RunPolicy (engine.mkStep "test" [] runtime.RunNever tt)
     <> engine.RunPolicy (engine.mkStep "test" [] runtime.RunOnSuccess tt).
Proof.
  split; [right; left |]. repeat split. discriminate.
Qed.

Lemma filter_honors_include_and_exclude_witness :
  engine.Steps (command.filterSteps ["build"; "test"] ["test"] sample.pipeline)
    !! 2%nat
  = Some (engine.setRunPolicy runtime.RunNever (sample.step "test" [])).
Proof.
  destruct (filter_honors_include_and_exclude sample.pipeline
              ["build"; "test"] ["test"]) as (_ & Hstep & _);
    [discriminate | discriminate |].
  exact (Hstep 2%nat (sample.step "test" []) eq_refl).
Defined.

(** C1, as the claim words it, fails: with include list build, test and
    exclude list test, the step test ends with the policy "never", while
    the include list alone leaves it to run. *)
Lemma exclude_is_evaluated_after_include :
  engine.RunPolicy <$> engine.Steps
    (command.filterSteps ["build"; "test"] ["test"] sample.pipeline)
  = [runtime.RunOnSuccess; runtime.RunOnSuccess; runtime.RunNever; runtime.RunNever]
  /\ engine.RunPolicy <$> engine.Steps
       (command.filterSteps ["build"; "test"] [] sample.pipeline)
     = [runtime.RunOnSuccess; runtime.RunOnSuccess; runtime.RunOnSuccess;
        runtime.RunNever]
  /\ engine.RunPolicy <$> engine.Steps
       (command.filterSteps ["build"; "test"] ["test"] sample.pipeline)
     <> engine.RunPolicy <$> engine.Steps
          (command.filterSteps ["build"; "test"] [] sample.pipeline).
Proof. repeat split. discriminate. Qed.

(** * Further properties of the graph passes *)

Section GraphPassFacts.

Import engine.

Context {A B : Type}.
Implicit Types (spec : Spec A B) (step s p t : Step A) (steps : list (Step A)).

Lemma isGraphLoop_false steps :
  compiler.isGraphLoop steps = false <-> Forall (fun s => DependsOn s = []) steps.
Proof.
  induction steps as [|x rest IH]; simpl.
  - split; [constructor | reflexivity].
  - case_decide as Hlen.
    + split; [discriminate |]. intros Hall. inversion Hall as [|? ? Hx _]; subst.
      rewrite Hx in Hlen. simpl in Hlen. lia.
    + rewrite IH. split.
      * intros Hrest. constructor; [| assumption].
        destruct (DependsOn x); [reflexivity | simpl in Hlen; lia].
      * intros Hall. by inversion Hall.
Qed.

Lemma isGraphLoop_true steps :
  compiler.isGraphLoop steps = true <-> exists s, s ∈ steps /\ DependsOn s <> [].
Proof.
  rewrite <- not_false_iff_true, isGraphLoop_false.
  split.
  - intros Hnot. apply not_Forall_Exists in Hnot; [| intros s; apply _].
    apply Exists_exists in Hnot as (s & Hs & Hdeps). by exists s.
  - intros (s & Hs & Hdeps) Hall.
    rewrite Forall_forall in Hall. by apply Hdeps, Hall.
Qed.

(** X1: [isGraph] answers false exactly when every step has an empty
    dependency list, and true exactly when some step declares a
    dependency. *)
Theorem isGraph_iff_declared_dependency spec :
  (compiler.isGraph spec = false
   <-> Forall (fun s => DependsOn s = []) (Steps spec))
  /\ (compiler.isGraph spec = true
      <-> exists s, s ∈ Steps spec /\ DependsOn s <> []).
Proof.
  unfold compiler.isGraph.
  split; [apply isGraphLoop_false | apply isGraphLoop_true].
Qed.

Lemma setDependsOn_twice (d1 d2 : list string) s :
  setDependsOn d2 (setDependsOn d1 s) = setDependsOn d2 s.
Proof. reflexivity. Qed.

Lemma configureSerialLoop_twice steps (prev : option (Step A)) :
  compiler.configureSerialLoop prev (compiler.configureSerialLoop prev steps)
  = compiler.configureSerialLoop prev steps.
Proof.
  revert prev. induction steps as [|s rest IH]; intros prev; simpl;
    [reflexivity |].
  destruct prev as [p|]; simpl; by rewrite IH.
Qed.

(** X2: [configureSerial] is idempotent: a second pass over a chain
    changes nothing. *)
Theorem configureSerial_idempotent spec :
  compiler.configureSerial (compiler.configureSerial spec)
  = compiler.configureSerial spec.
Proof.
  unfold compiler.configureSerial, withSteps. simpl.
  by rewrite configureSerialLoop_twice.
Qed.

(** X3: [configureSerial] does not look at declared dependencies: step 0
    is returned as it is, and every later step has its dependency list,
    whatever it was, replaced by the name of its predecessor; nothing but
    [DependsOn] changes. *)
Theorem configureSerial_overwrites_dependencies spec :
  Steps (compiler.configureSerial spec) !! 0%nat = Steps spec !! 0%nat
  /\ (forall i p s,
        Steps spec !! i = Some p ->
        Steps spec !! S i = Some s ->
        Steps (compiler.configureSerial spec) !! S i
        = Some (setDependsOn [Name p] s))
  /\ setDependsOn [] <$> Steps (compiler.configureSerial spec)
     = setDependsOn [] <$> Steps spec
  /\ SpecOther (compiler.configureSerial spec) = SpecOther spec.
Proof.
  unfold compiler.configureSerial. simpl. repeat split.
  - by destruct (Steps spec).
  - intros i p s Hp Hs. by apply configureSerialLoop_next.
  - generalize (@None (Step A)). induction (Steps spec) as [|s rest IH];
      intros prev; simpl; [reflexivity |].
    rewrite IH. by destruct prev.
Qed.

(** X4: a serial chain over two or more steps is a graph for [isGraph],
    and [configureSerial] returns a set of at most one step as it is. *)
Theorem configureSerial_makes_graph spec :
  ((2 <= length (Steps spec))%nat ->
   compiler.isGraph (compiler.configureSerial spec) = true)
  /\ ((length (Steps spec) <= 1)%nat -> compiler.configureSerial spec = spec).
Proof.
  split.
  - intros Hlen. apply isGraphLoop_true.
    destruct (Steps spec) as [|s0 [|s1 rest]] eqn:Hsteps;
      [simpl in Hlen; lia | simpl in Hlen; lia |].
    exists (setDependsOn [Name s0] s1). split; [| discriminate].
    unfold compiler.configureSerial. simpl. rewrite Hsteps. simpl.
    right. left.
  - intros Hlen. destruct spec as [steps other].
    unfold compiler.configureSerial, withSteps. simpl in *.
    destruct steps as [|s0 [|s1 rest]]; [reflexivity | reflexivity |].
    simpl in Hlen. lia.
Qed.

Lemma configureCloneDep_twice s :
  compiler.configureCloneDep (compiler.configureCloneDep s)
  = compiler.configureCloneDep s.
Proof.
  unfold compiler.configureCloneDep.
  destruct (String.eqb (Name s) "clone") eqn:Hname; [by rewrite Hname |].
  case_decide as Hlen; simpl; rewrite Hname; [reflexivity |].
  by rewrite decide_False.
Qed.

Lemma configureCloneDep_nonempty s :
  Name s <> "clone" -> DependsOn (compiler.configureCloneDep s) <> [].
Proof.
  intros Hname. unfold compiler.configureCloneDep.
  destruct (String.eqb_spec (Name s) "clone"); [contradiction |].
  case_decide as Hlen; [discriminate |].
  intros Hnil. by rewrite Hnil in Hlen.
Qed.

Lemma configureCloneDep_frame s :
  setDependsOn [] (compiler.configureCloneDep s) = setDependsOn [] s.
Proof.
  unfold compiler.configureCloneDep.
  destruct (String.eqb (Name s) "clone"); [reflexivity |].
  by case_decide.
Qed.

Lemma removeCloneDep_frame s :
  setDependsOn [] (compiler.removeCloneDep s) = setDependsOn [] s.
Proof.
  unfold compiler.removeCloneDep.
  destruct (DependsOn s) as [|dep [|dep' deps]]; try reflexivity.
  by destruct (String.eqb dep "clone").
Qed.

(** X5: after [configureCloneDeps] every step that is not named "clone"
    has a dependency, a step named "clone" is as it was, and a second pass
    changes nothing. *)
Theorem configureCloneDeps_postcondition spec :
  (forall s, s ∈ Steps (compiler.configureCloneDeps spec) ->
             Name s <> "clone" -> DependsOn s <> [])
  /\ (forall i s, Steps spec !! i = Some s -> Name s = "clone" ->
                  Steps (compiler.configureCloneDeps spec) !! i = Some s)
  /\ compiler.configureCloneDeps (compiler.configureCloneDeps spec)
     = compiler.configureCloneDeps spec.
Proof.
  unfold compiler.configureCloneDeps, withSteps. simpl. repeat split.
  - intros s Hs Hname. apply list_elem_of_fmap in Hs as (s0 & -> & _).
    apply configureCloneDep_nonempty.
    intros Hclone. apply Hname. unfold compiler.configureCloneDep.
    by rewrite <- Hclone, String.eqb_refl.
  - intros i s Hs Hname. rewrite list_lookup_fmap, Hs. simpl.
    unfold compiler.configureCloneDep. by rewrite Hname.
  - f_equal. rewrite <- list_fmap_compose. apply list_fmap_ext.
    intros _ s _. apply configureCloneDep_twice.
Qed.

(** X6: the two clone passes assign to [DependsOn] only: steps keep their
    number, order, names, run policies and other fields, and the rest of
    the spec is untouched. *)
Theorem clone_passes_change_dependencies_only spec :
  setDependsOn [] <$> Steps (compiler.configureCloneDeps spec)
  = setDependsOn [] <$> Steps spec
  /\ SpecOther (compiler.configureCloneDeps spec) = SpecOther spec
  /\ setDependsOn [] <$> Steps (compiler.removeCloneDeps spec)
     = setDependsOn [] <$> Steps spec
  /\ SpecOther (compiler.removeCloneDeps spec) = SpecOther spec.
Proof.
  unfold compiler.configureCloneDeps, compiler.removeCloneDeps.
  repeat split; simpl.
  - rewrite <- list_fmap_compose. apply list_fmap_ext.
    intros _ s _. apply configureCloneDep_frame.
  - destruct (compiler.hasCloneStep (Steps spec)); [reflexivity |]. simpl.
    rewrite <- list_fmap_compose. apply list_fmap_ext.
    intros _ s _. apply removeCloneDep_frame.
  - by destruct (compiler.hasCloneStep (Steps spec)).
Qed.

Lemma configureSerialLoop_tail_nonempty steps (prev : option (Step A)) i s :
  compiler.configureSerialLoop prev steps !! S i = Some s -> DependsOn s <> [].
Proof.
  revert prev i. induction steps as [|x rest IH]; intros prev i; [discriminate |].
  simpl. destruct i as [|j].
  - destruct rest as [|y rest']; [discriminate |]. simpl. by intros [= <-].
  - apply IH.
Qed.

(** X7: after [configureSerial], [configureCloneDeps] can change the first
    step only: every later step already has a dependency and stays as the
    serial pass left it. *)
Theorem configureCloneDeps_after_configureSerial spec (i : nat) :
  Steps (compiler.configureCloneDeps (compiler.configureSerial spec)) !! S i
  = Steps (compiler.configureSerial spec) !! S i.
Proof.
  unfold compiler.configureCloneDeps. simpl. rewrite list_lookup_fmap.
  destruct (compiler.configureSerialLoop None (Steps spec) !! S i) as [s|] eqn:Hs;
    [| reflexivity].
  simpl. f_equal. apply configureSerialLoop_tail_nonempty in Hs.
  unfold compiler.configureCloneDep.
  destruct (String.eqb (Name s) "clone"); [reflexivity |].
  case_decide as Hlen; [| reflexivity].
  by apply length_zero_nil in Hlen.
Qed.

Lemma hasCloneStep_fmap (f : Step A -> Step A) steps :
  (forall s, Name (f s) = Name s) ->
  compiler.hasCloneStep (f <$> steps) = compiler.hasCloneStep steps.
Proof.
  intros Hf. induction steps as [|x rest IH]; simpl; [reflexivity |].
  rewrite Hf. destruct (String.eqb (Name x) "clone"); [reflexivity | exact IH].
Qed.

Lemma configureCloneDep_name s : Name (compiler.configureCloneDep s) = Name s.
Proof.
  unfold compiler.configureCloneDep.
  destruct (String.eqb (Name s) "clone"); [reflexivity |]. by case_decide.
Qed.

(** X8: on a set with no step named "clone" in which no step depends on
    exactly ["clone"], [removeCloneDeps] undoes [configureCloneDeps]. *)
Theorem removeCloneDeps_undoes_configureCloneDeps spec :
  (forall s, s ∈ Steps spec -> Name s <> "clone") ->
  (forall s, s ∈ Steps spec -> DependsOn s <> ["clone"]) ->
  compiler.removeCloneDeps (compiler.configureCloneDeps spec) = spec.
Proof.
  intros Hno Hdeps. destruct spec as [steps other]. simpl in *.
  unfold compiler.removeCloneDeps, compiler.configureCloneDeps, withSteps.
  simpl. rewrite (hasCloneStep_fmap _ _ configureCloneDep_name).
  apply hasCloneStep_false in Hno as Hnone. rewrite Hnone. simpl.
  f_equal. rewrite <- list_fmap_compose.
  rewrite <- (list_fmap_id steps) at 2. apply list_fmap_ext.
  intros i s Hs. simpl.
  assert (Hin : s ∈ steps) by (apply list_elem_of_lookup; by exists i).
  specialize (Hno s Hin). specialize (Hdeps s Hin).
  unfold compiler.configureCloneDep.
  destruct (String.eqb_spec (Name s) "clone"); [contradiction |].
  case_decide as Hlen.
  - apply length_zero_nil in Hlen. destruct s as [name deps policy rest].
    simpl in *. subst deps. reflexivity.
  - by apply removeCloneDep_other.
Qed.

Lemma removeCloneDep_twice s :
  compiler.removeCloneDep (compiler.removeCloneDep s) = compiler.removeCloneDep s.
Proof.
  destruct (decide (DependsOn s = ["clone"])) as [Hsole|Hother].
  - by rewrite (removeCloneDep_sole s Hsole).
  - by rewrite !(removeCloneDep_other s Hother).
Qed.

(** X9: [removeCloneDeps] is idempotent, and after it, on a set with no
    step named "clone", no step depends on exactly ["clone"]. *)
Theorem removeCloneDeps_postcondition spec :
  compiler.removeCloneDeps (compiler.removeCloneDeps spec)
  = compiler.removeCloneDeps spec
  /\ ((forall s, s ∈ Steps spec -> Name s <> "clone") ->
      forall s, s ∈ Steps (compiler.removeCloneDeps spec) ->
                DependsOn s <> ["clone"]).
Proof.
  split.
  - unfold compiler.removeCloneDeps at 2 3.
    destruct (compiler.hasCloneStep (Steps spec)) eqn:Hclone.
    + unfold compiler.removeCloneDeps. by rewrite Hclone.
    + unfold compiler.removeCloneDeps, withSteps. simpl.
      rewrite (hasCloneStep_fmap _ _ removeCloneDep_name), Hclone.
      f_equal. rewrite <- list_fmap_compose. apply list_fmap_ext.
      intros _ s _. apply removeCloneDep_twice.
  - intros Hno s Hs. apply hasCloneStep_false in Hno.
    unfold compiler.removeCloneDeps in Hs. rewrite Hno in Hs. simpl in Hs.
    apply list_elem_of_fmap in Hs as (s0 & -> & _).
    destruct (decide (DependsOn s0 = ["clone"])) as [Hsole|Hother].
    + by rewrite (removeCloneDep_sole s0 Hsole).
    + by rewrite (removeCloneDep_other s0 Hother).
Qed.

(** X10: [configureCloneDeps] does not check that a step named "clone"
    exists: on a set without one, a step with no dependency is made to
    depend on "clone" all the same, a name that no step of the result
    has. *)
Theorem configureCloneDeps_without_clone_step spec (i : nat) s :
  (forall t, t ∈ Steps spec -> Name t <> "clone") ->
  Steps spec !! i = Some s ->
  DependsOn s = [] ->
  Steps (compiler.configureCloneDeps spec) !! i
  = Some (setDependsOn ["clone"] s)
  /\ forall t, t ∈ Steps (compiler.configureCloneDeps spec) ->
               Name t <> "clone".
Proof.
  intros Hno Hs Hdeps. unfold compiler.configureCloneDeps. simpl. split.
  - rewrite list_lookup_fmap, Hs. simpl. unfold compiler.configureCloneDep.
    assert (Hin : s ∈ Steps spec) by (apply list_elem_of_lookup; by exists i).
    destruct (String.eqb_spec (Name s) "clone"); [by apply Hno in Hin |].
    by rewrite Hdeps.
  - intros t Ht. apply list_elem_of_fmap in Ht as (t0 & -> & Ht0).
    rewrite configureCloneDep_name. by apply Hno.
Qed.

End GraphPassFacts.

Lemma configureSerial_makes_graph_witness :
  compiler.isGraph (compiler.configureSerial sample.serial) = true
  /\ compiler.configureSerial (sample.spec [sample.step "build" []])
     = sample.spec [sample.step "build" []].
Proof.
  split.
  - apply (configureSerial_makes_graph sample.serial). simpl. lia.
  - apply (configureSerial_makes_graph (sample.spec [sample.step "build" []])).
    simpl. lia.
Defined.

Lemma removeCloneDeps_undoes_configureCloneDeps_witness :
  compiler.removeCloneDeps (compiler.configureCloneDeps sample.serial)
  = sample.serial.
Proof.
  apply (removeCloneDeps_undoes_configureCloneDeps sample.serial).
  - apply Forall_forall. repeat constructor; discriminate.
  - apply Forall_forall. repeat constructor; discriminate.
Defined.

Lemma removeCloneDeps_postcondition_witness :
  engine.DependsOn (sample.step "build" []) <> ["clone"].
Proof.
  apply (removeCloneDeps_postcondition sample.orphans).
  - apply Forall_forall. repeat constructor; discriminate.
  - left.
Defined.

Lemma configureCloneDeps_without_clone_step_witness :
  engine.Steps (compiler.configureCloneDeps sample.serial) !! 1%nat
  = Some (sample.step "test" ["clone"])
  /\ forall t, t ∈ engine.Steps (compiler.configureCloneDeps sample.serial) ->
               engine.Name t <> "clone".
Proof.
  apply (configureCloneDeps_without_clone_step sample.serial 1
           (sample.step "test" [])).
  - apply Forall_forall. repeat constructor; discriminate.
  - reflexivity.
  - reflexivity.
Defined.

(** * Further properties of the resource helpers *)

Lemma firstNonZero_nonneg (values : list Z) : 0 <= compiler.firstNonZero values.
Proof.
  induction values as [|x rest IH]; simpl; [lia |].
  destruct (Z.ltb_spec 0 x); lia.
Qed.

(** X11: [firstNonZero] never returns a negative number, and resolving in
    two stages gives the result of resolving the concatenated candidate
    list: the first positive value of the group results is the first
    positive value overall. *)
Theorem firstNonZero_nested (front back : list Z) :
  0 <= compiler.firstNonZero (front ++ back)
  /\ compiler.firstNonZero (front ++ back)
     = compiler.firstNonZero
         [compiler.firstNonZero front; compiler.firstNonZero back].
Proof.
  split; [apply firstNonZero_nonneg |].
  induction front as [|x rest IH].
  - simpl. pose proof (firstNonZero_nonneg back).
    destruct (Z.ltb_spec 0 (compiler.firstNonZero back)); lia.
  - simpl. destruct (Z.ltb_spec 0 x) as [Hpos|Hle].
    + simpl. by rewrite (proj2 (Z.ltb_lt 0 x) Hpos).
    + exact IH.
Qed.

(** X12: [max] and [min] are the least upper and greatest lower bound of
    their arguments, and between them return both arguments. *)
Theorem max_min_bounds (a b : Z) :
  (forall c, compiler.max a b <= c <-> a <= c /\ b <= c)
  /\ (forall c, c <= compiler.min a b <-> c <= a /\ c <= b)
  /\ compiler.min a b + compiler.max a b = a + b
  /\ (compiler.max a b = a \/ compiler.max a b = b).
Proof.
  unfold compiler.max, compiler.min.
  destruct (Z.ltb_spec b a), (Z.ltb_spec a b); repeat split; intros; lia.
Qed.

Lemma int64_mul_periodic (m k : Z) :
  int64.mul (m + k * 2 ^ 44) (1024 * 1024) = int64.mul m (1024 * 1024).
Proof.
  unfold int64.mul, int64.wrap. f_equal.
  replace ((m + k * 2 ^ 44) * (1024 * 1024) + 2 ^ 63)
    with (m * (1024 * 1024) + 2 ^ 63 + k * 2 ^ 64) by lia.
  apply Z_mod_plus_full.
Qed.


(** X14: beyond that range the conversion wraps: two amounts that differ
    by a multiple of 2^44 megabytes convert to the same byte count, so the
    amount 2^44 converts to zero bytes. *)
Theorem scaleMemory_wraps (obj : compiler.ResourceObject) (k : Z) :
  compiler.Memory
    (command.scaleMemory
       (compiler.mkResourceObject (compiler.CPU obj)
          (compiler.Memory obj + k * 2 ^ 44) (compiler.GPU obj)))
  = compiler.Memory (command.scaleMemory obj)
  /\ compiler.Memory
       (command.scaleMemory (compiler.mkResourceObject 0 (2 ^ 44) 0)) = 0.
Proof.
  split; [apply int64_mul_periodic | reflexivity].
Qed.


(** * Environment variables *)

Section EnvironmentFacts.

Variable TrimSpace : string -> string.

Implicit Types (src env : compiler.Environ).
Implicit Types (entries : list (string * option manifest.Var)).
Implicit Types (k name : string) (var : manifest.Var) (sv : engine.SecretVar.t).

Lemma convertStaticEnvLoop_lookup entries (dst : gmap string string) k :
  NoDup entries.*1 ->
  compiler.convertStaticEnvLoop TrimSpace dst entries !! k
  = match (list_to_map entries : compiler.Environ) !! k with
    | Some (Some var) =>
        if decide (TrimSpace (manifest.Secret var) = "")
        then Some (manifest.Value var) else dst !! k
    | _ => dst !! k
    end.
Proof.
  revert dst. induction entries as [|[k0 v0] rest IH]; intros dst Hnodup.
  - reflexivity.
  - simpl in *. apply NoDup_cons in Hnodup as [Hfresh Hnodup].
    rewrite IH by assumption.
    destruct (decide (k = k0)) as [->|Hne].
    + rewrite (not_elem_of_list_to_map_1 rest k0 Hfresh), lookup_insert_eq.
      unfold compiler.staticEnvStep. destruct v0 as [var|]; [| reflexivity].
      case_decide; [by rewrite lookup_insert_eq | reflexivity].
    + rewrite lookup_insert_ne by congruence.
      assert (Hdst : compiler.staticEnvStep TrimSpace dst k0 v0 !! k = dst !! k).
      { unfold compiler.staticEnvStep. destruct v0 as [var|]; [| reflexivity].
        case_decide; [by rewrite lookup_insert_ne by congruence | reflexivity]. }
      by rewrite Hdst.
Qed.

Lemma range_order_map entries src :
  entries ≡ₚ map_to_list src ->
  NoDup entries.*1 /\ (list_to_map entries : compiler.Environ) = src.
Proof.
  intros Hperm. assert (Hnodup : NoDup entries.*1).
  { rewrite Hperm. apply NoDup_fst_map_to_list. }
  split; [assumption |].
  rewrite (list_to_map_proper _ _ Hnodup Hperm). apply list_to_map_to_list.
Qed.

(** X15: in whatever order the map is ranged over, [convertStaticEnv]
    binds a name exactly when the source binds it to a variable whose
    secret name is blank after trimming, and then to the literal value of
    that variable; names bound to nil or to a secret, and names that are
    absent, have no binding. *)
Theorem convertStaticEnv_lookup src entries k :
  entries ≡ₚ map_to_list src ->
  compiler.convertStaticEnvLoop TrimSpace ∅ entries !! k
  = match src !! k with
    | Some (Some var) =>
        if decide (TrimSpace (manifest.Secret var) = "")
        then Some (manifest.Value var) else None
    | _ => None
    end.
Proof.
  intros Hperm. apply range_order_map in Hperm as [Hnodup Hmap].
  rewrite convertStaticEnvLoop_lookup, Hmap by assumption.
  by rewrite lookup_empty.
Qed.

Lemma convertSecretEnvLoop_omap entries (dst : list engine.SecretVar.t) :
  compiler.convertSecretEnvLoop TrimSpace dst entries
  = dst ++ omap (fun kv => match kv.2 with
                           | Some var =>
                               if decide (TrimSpace (manifest.Secret var) <> "")
                               then Some (engine.SecretVar.mk
                                            (manifest.Secret var) kv.1)
                               else None
                           | None => None
                           end) entries.
Proof.
  revert dst. induction entries as [|[k0 v0] rest IH]; intros dst; simpl.
  - by rewrite app_nil_r.
  - rewrite IH. unfold compiler.secretEnvStep.
    destruct v0 as [var|]; [| reflexivity].
    case_decide; [by rewrite <- app_assoc | reflexivity].
Qed.

Lemma convertSecretEnvLoop_elem_of entries sv :
  sv ∈ compiler.convertSecretEnvLoop TrimSpace [] entries
  <-> exists var,
      (engine.SecretVar.Env sv, Some var) ∈ entries
      /\ TrimSpace (manifest.Secret var) <> ""
      /\ engine.SecretVar.Name sv = manifest.Secret var.
Proof.
  rewrite convertSecretEnvLoop_omap. simpl. rewrite list_elem_of_omap. split.
  - intros ([k v] & Hin & Hsome). simpl in Hsome.
    destruct v as [var|]; [| discriminate].
    case_decide; [| discriminate]. injection Hsome as <-. simpl.
    by exists var.
  - intros (var & Hin & Hsecret & Hname).
    exists (engine.SecretVar.Env sv, Some var). split; [assumption |]. simpl.
    rewrite decide_True by assumption. destruct sv as [n e]. simpl in *.
    by subst n.
Qed.

(** X16: in whatever order the map is ranged over, [convertSecretEnv]
    returns a reference for a name exactly when the source binds the name
    to a variable whose secret name is not blank after trimming; the
    reference carries the secret name as written, not trimmed. *)
Theorem convertSecretEnv_elem_of src entries sv :
  entries ≡ₚ map_to_list src ->
  sv ∈ compiler.convertSecretEnvLoop TrimSpace [] entries
  <-> exists var,
      src !! engine.SecretVar.Env sv = Some (Some var)
      /\ TrimSpace (manifest.Secret var) <> ""
      /\ engine.SecretVar.Name sv = manifest.Secret var.
Proof.
  intros Hperm. rewrite convertSecretEnvLoop_elem_of.
  split; intros (var & Hin & Hrest); exists var; (split; [| exact Hrest]).
  - rewrite Hperm in Hin. by apply elem_of_map_to_list.
  - rewrite Hperm. by apply elem_of_map_to_list.
Qed.

(** X17: the order of ranging moves the references of [convertSecretEnv]
    but neither adds nor drops one, and no environment variable name is
    referenced twice. *)
Theorem convertSecretEnv_order src entries :
  entries ≡ₚ map_to_list src ->
  compiler.convertSecretEnvLoop TrimSpace [] entries
  ≡ₚ compiler.convertSecretEnv TrimSpace src
  /\ NoDup (engine.SecretVar.Env <$>
            compiler.convertSecretEnvLoop TrimSpace [] entries).
Proof.
  intros Hperm. unfold compiler.convertSecretEnv.
  rewrite !convertSecretEnvLoop_omap. simpl. split.
  - by rewrite Hperm.
  - assert (Hnodup : NoDup entries.*1).
    { rewrite Hperm. apply NoDup_fst_map_to_list. }
    clear Hperm. induction entries as [|[k0 v0] rest IH]; simpl.
    + constructor.
    + simpl in Hnodup. apply NoDup_cons in Hnodup as [Hfresh Hnodup].
      specialize (IH Hnodup).
      destruct v0 as [var|]; [| exact IH].
      case_decide; [| exact IH]. simpl. constructor; [| exact IH].
      intros Hin. apply Hfresh.
      apply list_elem_of_fmap in Hin as (sv & Hk & Hsv).
      apply list_elem_of_omap in Hsv as ([k v] & Hkv & Hsome).
      simpl in Hsome. destruct v as [var'|]; [| discriminate].
      case_decide; [| discriminate]. injection Hsome as <-. simpl in Hk.
      subst k0. apply list_elem_of_fmap. by exists (k, Some var').
Qed.

(** X18: every name bound to a variable goes to exactly one of the two
    results: to the static environment with its literal value, or to the
    secret references; a name bound to nil, or absent, goes to
    neither. *)
Theorem environment_split src k :
  match src !! k with
  | Some (Some var) =>
      (compiler.convertStaticEnv TrimSpace src !! k = Some (manifest.Value var)
       /\ forall sv, sv ∈ compiler.convertSecretEnv TrimSpace src ->
                     engine.SecretVar.Env sv <> k)
      \/ (compiler.convertStaticEnv TrimSpace src !! k = None
          /\ engine.SecretVar.mk (manifest.Secret var) k
             ∈ compiler.convertSecretEnv TrimSpace src)
  | _ =>
      compiler.convertStaticEnv TrimSpace src !! k = None
      /\ forall sv, sv ∈ compiler.convertSecretEnv TrimSpace src ->
                    engine.SecretVar.Env sv <> k
  end.
Proof.
  unfold compiler.convertStaticEnv, compiler.convertSecretEnv.
  destruct (range_order_map (map_to_list src) src) as [Hnodup Hmap];
    [reflexivity |].
  rewrite convertStaticEnvLoop_lookup, Hmap, lookup_empty by assumption.
  assert (Hsecret : forall sv,
             sv ∈ compiler.convertSecretEnvLoop TrimSpace [] (map_to_list src) ->
             exists var, src !! engine.SecretVar.Env sv = Some (Some var)
                         /\ TrimSpace (manifest.Secret var) <> "").
  { intros sv Hsv. apply convertSecretEnvLoop_elem_of in Hsv
      as (var & Hin & Hne & _).
    exists var. split; [by apply elem_of_map_to_list | assumption]. }
  destruct (src !! k) as [[var|]|] eqn:Hk.
  - case_decide as Hblank.
    + left. split; [reflexivity |]. intros sv Hsv Henv.
      apply Hsecret in Hsv as (var' & Hlook & Hne).
      rewrite Henv, Hk in Hlook. injection Hlook as <-. contradiction.
    + right. split; [reflexivity |].
      apply convertSecretEnvLoop_elem_of. exists var. simpl.
      split; [by apply elem_of_map_to_list | done].
  - split; [reflexivity |]. intros sv Hsv Henv.
    apply Hsecret in Hsv as (var' & Hlook & _).
    rewrite Henv, Hk in Hlook. discriminate.
  - split; [reflexivity |]. intros sv Hsv Henv.
    apply Hsecret in Hsv as (var' & Hlook & _).
    rewrite Henv, Hk in Hlook. discriminate.
Qed.

Lemma isRestrictedLoop_true (names : list string) env :
  compiler.isRestrictedLoop names env = true
  <-> exists name, name ∈ names /\ is_Some (env !! name).
Proof.
  induction names as [|n rest IH]; simpl.
  - split; [discriminate | intros (name & Hin & _); inversion Hin].
  - case_decide as Hkey.
    + split; [| reflexivity]. intros _. exists n. split; [left | assumption].
    + rewrite IH. split.
      * intros (name & Hin & Hsome). exists name. split; [by right | assumption].
      * intros (name & Hin & Hsome). exists name. split; [| assumption].
        inversion Hin; subst; [contradiction | assumption].
Qed.

(** X19: [isRestrictedVariable] answers true exactly when one of the five
    restricted names is a key of the environment.  The binding is not
    looked at, so a restricted name bound to nil is reported too, and
    names are compared as written. *)
Theorem isRestrictedVariable_iff env :
  (compiler.isRestrictedVariable env = true
   <-> exists name, name ∈ compiler.restrictedVars /\ is_Some (env !! name))
  /\ (forall name, name ∈ compiler.restrictedVars ->
                   compiler.isRestrictedVariable (<[name := None]> env) = true)
  /\ (forall name v, name ∉ compiler.restrictedVars ->
                     compiler.isRestrictedVariable (<[name := v]> env)
                     = compiler.isRestrictedVariable env).
Proof.
  unfold compiler.isRestrictedVariable. split; [apply isRestrictedLoop_true |].
  split.
  - intros name Hin. apply isRestrictedLoop_true. exists name.
    split; [assumption |]. by rewrite lookup_insert_eq.
  - intros name v Hout.
    destruct (compiler.isRestrictedLoop compiler.restrictedVars env) eqn:Hres.
    + apply isRestrictedLoop_true in Hres as (n & Hin & Hsome).
      apply isRestrictedLoop_true. exists n. split; [assumption |].
      rewrite lookup_insert_ne; [assumption |]. intros ->. contradiction.
    + apply not_true_iff_false. apply not_true_iff_false in Hres.
      intros Htrue. apply Hres.
      apply isRestrictedLoop_true in Htrue as (n & Hin & Hsome).
      apply isRestrictedLoop_true. exists n. split; [assumption |].
      rewrite lookup_insert_ne in Hsome; [assumption |]. intros ->. contradiction.
Qed.

(** X20: an environment that [isRestrictedVariable] lets pass gives no
    restricted name to a step: neither the static environment nor the
    secret references bind one. *)
Theorem unrestricted_environment_binds_no_restricted_name env name :
  compiler.isRestrictedVariable env = false ->
  name ∈ compiler.restrictedVars ->
  compiler.convertStaticEnv TrimSpace env !! name = None
  /\ forall sv, sv ∈ compiler.convertSecretEnv TrimSpace env ->
                engine.SecretVar.Env sv <> name.
Proof.
  intros Hpass Hname.
  assert (Hkey : env !! name = None).
  { apply eq_None_not_Some. intros Hsome.
    apply not_true_iff_false in Hpass. apply Hpass.
    apply isRestrictedLoop_true. by exists name. }
  unfold compiler.convertStaticEnv, compiler.convertSecretEnv.
  destruct (range_order_map (map_to_list env) env) as [Hnodup Hmap];
    [reflexivity |].
  rewrite convertStaticEnvLoop_lookup, Hmap, lookup_empty, Hkey by assumption.
  split; [reflexivity |]. intros sv Hsv Henv.
  apply convertSecretEnvLoop_elem_of in Hsv as (var & Hin & _).
  apply elem_of_map_to_list in Hin. rewrite Henv, Hkey in Hin. discriminate.
Qed.

End EnvironmentFacts.

Lemma environOrder_range : sample.environOrder ≡ₚ map_to_list sample.environ.
Proof. vm_compute. exact (Permutation_rev sample.environOrder). Qed.

Lemma convertStaticEnv_lookup_witness :
  compiler.convertStaticEnvLoop gostrings.asciiTrimSpace ∅
    sample.environOrder !! "GOPATH"
  = Some "/go".
Proof.
  rewrite (convertStaticEnv_lookup gostrings.asciiTrimSpace sample.environ
             sample.environOrder "GOPATH" environOrder_range).
  reflexivity.
Defined.

Lemma convertSecretEnv_elem_of_witness :
  engine.SecretVar.mk " token " "TOKEN"
  ∈ compiler.convertSecretEnvLoop gostrings.asciiTrimSpace []
      sample.environOrder.
Proof.
  apply (convertSecretEnv_elem_of gostrings.asciiTrimSpace sample.environ
           sample.environOrder _ environOrder_range).
  exists (manifest.mkVar "" " token "). repeat split. discriminate.
Defined.

Lemma convertSecretEnv_order_witness :
  compiler.convertSecretEnvLoop gostrings.asciiTrimSpace [] sample.environOrder
  ≡ₚ compiler.convertSecretEnv gostrings.asciiTrimSpace sample.environ
  /\ NoDup (engine.SecretVar.Env <$>
            compiler.convertSecretEnvLoop gostrings.asciiTrimSpace []
              sample.environOrder).
Proof.
  exact (convertSecretEnv_order gostrings.asciiTrimSpace sample.environ
           sample.environOrder environOrder_range).
Defined.

Lemma unrestricted_environment_binds_no_restricted_name_witness :
  compiler.convertStaticEnv gostrings.asciiTrimSpace sample.environ !! "PATH"
  = None
  /\ forall sv,
      sv ∈ compiler.convertSecretEnv gostrings.asciiTrimSpace sample.environ ->
      engine.SecretVar.Env sv <> "PATH".
Proof.
  apply (unrestricted_environment_binds_no_restricted_name
           gostrings.asciiTrimSpace sample.environ "PATH").
  - reflexivity.
  - unfold compiler.restrictedVars. do 3 right. left.
Defined.

(** * Further properties of the step filter *)

Section StepFilterFacts.

Import engine.

Context {A B : Type}.
Implicit Types (spec : Spec A B) (step s t : Step A) (steps : list (Step A)).
Implicit Types (include exclude names : list string).

(** What the two blocks do to one step, for lists of any length. *)
Lemma filterSteps_fmap spec include exclude :
  Steps (command.filterSteps include exclude spec)
  = (fun s =>
       (if decide (0 < length exclude)%nat
        then command.excludeStep exclude else id)
         ((if decide (0 < length include)%nat
           then command.includeStep include else id) s))
      <$> Steps spec.
Proof.
  unfold command.filterSteps, command.excludeSteps, command.includeSteps.
  simpl. repeat case_decide; rewrite <- ?list_fmap_compose; try reflexivity.
  symmetry. apply list_fmap_id.
Qed.

Lemma includeStep_never_fixed include s :
  command.includeStep include (setRunPolicy runtime.RunNever s)
  = setRunPolicy runtime.RunNever s.
Proof.
  unfold command.includeStep.
  destruct (String.eqb _ _); [reflexivity |].
  by destruct (command.named _ _).
Qed.

Lemma excludeStep_never_fixed exclude s :
  command.excludeStep exclude (setRunPolicy runtime.RunNever s)
  = setRunPolicy runtime.RunNever s.
Proof.
  unfold command.excludeStep.
  destruct (String.eqb _ _); [reflexivity |].
  by destruct (command.named _ _).
Qed.

Lemma includeStep_cases include s :
  command.includeStep include s = s
  \/ command.includeStep include s = setRunPolicy runtime.RunNever s.
Proof.
  unfold command.includeStep.
  destruct (String.eqb _ _); [by left |].
  destruct (command.named _ _); [by left | by right].
Qed.

Lemma excludeStep_cases exclude s :
  command.excludeStep exclude s = s
  \/ command.excludeStep exclude s = setRunPolicy runtime.RunNever s.
Proof.
  unfold command.excludeStep.
  destruct (String.eqb _ _); [by left |].
  destruct (command.named _ _); [by right | by left].
Qed.

(** X21: the filter is idempotent: filtering a filtered set again with the
    same lists changes nothing. *)
Theorem filterSteps_idempotent spec include exclude :
  command.filterSteps include exclude
    (command.filterSteps include exclude spec)
  = command.filterSteps include exclude spec.
Proof.
  assert (Hform : forall sp : Spec A B,
             command.filterSteps include exclude sp
             = withSteps (Steps (command.filterSteps include exclude sp)) sp)
    by reflexivity.
  rewrite (Hform (command.filterSteps include exclude spec)).
  rewrite (Hform spec) at 3. unfold withSteps. f_equal.
  rewrite (filterSteps_fmap (command.filterSteps include exclude spec)).
  rewrite filterSteps_fmap, <- list_fmap_compose.
  apply list_fmap_ext. intros _ s _.
  set (inc := if decide (0 < length include)%nat
              then command.includeStep include else id).
  set (exc := if decide (0 < length exclude)%nat
              then command.excludeStep exclude else id).
  assert (Hinc : forall t, inc t = t \/ inc t = setRunPolicy runtime.RunNever t).
  { intros t. unfold inc. case_decide; [apply includeStep_cases | by left]. }
  assert (Hexc : forall t, exc t = t \/ exc t = setRunPolicy runtime.RunNever t).
  { intros t. unfold exc. case_decide; [apply excludeStep_cases | by left]. }
  assert (Hinc' : forall t, inc (setRunPolicy runtime.RunNever t)
                            = setRunPolicy runtime.RunNever t).
  { intros t. unfold inc. case_decide; [apply includeStep_never_fixed | done]. }
  assert (Hexc' : forall t, exc (setRunPolicy runtime.RunNever t)
                            = setRunPolicy runtime.RunNever t).
  { intros t. unfold exc. case_decide; [apply excludeStep_never_fixed | done]. }
  cbn beta. change ((fun x => exc (inc x)) ∘ (fun x => exc (inc x))) with
    (fun x => exc (inc (exc (inc x)))). cbn beta.
  destruct (Hinc s) as [Hi|Hi]; rewrite Hi.
  - destruct (Hexc s) as [He|He]; rewrite He.
    + by rewrite Hi, He.
    + by rewrite Hinc', Hexc'.
  - by rewrite !Hexc', Hinc', Hexc'.
Qed.

(** X22: a step named "clone" comes out of the filter as it went in,
    whatever the two lists name, and with both lists empty the filter
    returns the spec unchanged. *)
Theorem filterSteps_exempts_clone spec include exclude (i : nat) s :
  (Steps spec !! i = Some s -> Name s = "clone" ->
   Steps (command.filterSteps include exclude spec) !! i = Some s)
  /\ command.filterSteps [] [] spec = spec.
Proof.
  split.
  - intros Hs Hname. rewrite filterSteps_fmap, list_lookup_fmap, Hs.
    cbn [fmap option_fmap option_map]. f_equal.
    repeat case_decide; unfold id;
      rewrite ?(includeStep_keep include s) by (by left);
      rewrite ?(excludeStep_keep exclude s) by (by left); reflexivity.
  - by destruct spec.
Qed.

(** X23: with an empty include list and a non-empty exclude list, every
    step named in the exclude list, except a step named "clone", gets the
    run policy "never", and every other step is returned as it was. *)
Theorem exclude_forces_named_to_never spec exclude (i : nat) s :
  exclude <> [] ->
  Steps spec !! i = Some s ->
  (Name s <> "clone" -> Name s ∈ exclude ->
   Steps (command.filterSteps [] exclude spec) !! i
   = Some (mkStep (Name s) (DependsOn s) runtime.RunNever (StepOther s))
   /\ RunPolicy <$> Steps (command.filterSteps [] exclude spec) !! i
      = Some runtime.RunNever)
  /\ (Name s = "clone" \/ Name s ∉ exclude ->
      Steps (command.filterSteps [] exclude spec) !! i = Some s
      /\ RunPolicy <$> Steps (command.filterSteps [] exclude spec) !! i
         = Some (RunPolicy s)).
Proof.
  intros Hne Hs. unfold command.filterSteps. simpl.
  rewrite includeSteps_nil, excludeSteps_nonempty by assumption.
  rewrite list_lookup_fmap, Hs. simpl. split.
  - intros Hclone Hin. by rewrite excludeStep_never.
  - intros Hkeep. by rewrite excludeStep_keep.
Qed.

End StepFilterFacts.

Lemma filterSteps_exempts_clone_witness :
  engine.Steps (command.filterSteps ["build"] ["clone"] sample.pipeline) !! 0%nat
  = Some (sample.step "clone" []).
Proof.
  apply (filterSteps_exempts_clone sample.pipeline ["build"] ["clone"] 0
           (sample.step "clone" [])); reflexivity.
Defined.

Lemma exclude_forces_named_to_never_witness :
  (engine.Steps (command.filterSteps [] ["deploy"] sample.pipeline) !! 3%nat
   = Some (engine.mkStep "deploy" [] runtime.RunNever tt)
   /\ engine.RunPolicy <$>
        engine.Steps (command.filterSteps [] ["deploy"] sample.pipeline) !! 3%nat
      = Some runtime.RunNever)
  /\ (engine.Steps (command.filterSteps [] ["deploy"] sample.pipeline) !! 2%nat
      = Some (engine.mkStep "test" [] runtime.RunOnSuccess tt)
      /\ engine.RunPolicy <$>
           engine.Steps (command.filterSteps [] ["deploy"] sample.pipeline) !! 2%nat
         = Some runtime.RunOnSuccess).
Proof.
  split.
  - apply (exclude_forces_named_to_never sample.pipeline ["deploy"] 3
             (sample.step "deploy" [])); [discriminate | reflexivity | discriminate |].
    left.
  - apply (exclude_forces_named_to_never sample.pipeline ["deploy"] 2
             (sample.step "test" [])); [discriminate | reflexivity |].
    right. apply not_elem_of_cons. split; [discriminate | apply not_elem_of_nil].
Defined.

(** * Stage records *)

Section StageStepFacts.

Import engine.

Context {A B : Type}.
Variable ErrPolicy : A -> runtime.ErrPolicy.
Variable StatusPending : string.

Implicit Types (spec : Spec A B) (step s t : Step A) (steps : list (Step A)).
Implicit Types (stage : drone.Stage) (r : drone.Step).

(** The loop of [run] in closed form: the records of the stage, followed
    by one record for each step that runs, numbered from the end of the
    stage. *)
Lemma createStageSteps_closed steps stage :
  command.createStageSteps ErrPolicy StatusPending stage steps
  = drone.mkStage (drone.ID stage)
      (drone.Steps stage
       ++ imap (fun i s =>
                  drone.mkStep (drone.ID stage)
                    (Z.of_nat (length (drone.Steps stage) + i) + 1)
                    (Name s) StatusPending
                    (match ErrPolicy (StepOther s) with
                     | runtime.ErrIgnore => true
                     | _ => false
                     end))
            (filter (fun s => RunPolicy s <> runtime.RunNever) steps)).
Proof.
  revert stage. induction steps as [|s rest IH]; intros stage.
  - simpl. destruct stage as [id old]. simpl. by rewrite app_nil_r.
  - assert (Hrun : RunPolicy s <> runtime.RunNever ->
                   command.createStageSteps ErrPolicy StatusPending stage (s :: rest)
                   = command.createStageSteps ErrPolicy StatusPending
                       (drone.mkStage (drone.ID stage)
                          (drone.Steps stage
                           ++ [command.newStageStep ErrPolicy StatusPending stage s]))
                       rest).
    { intros Hne. simpl. by destruct (RunPolicy s). }
    destruct (decide (RunPolicy s = runtime.RunNever)) as [Hnever|Hne].
    + rewrite filter_cons_False by (intros Hne; by apply Hne).
      simpl. rewrite Hnever. apply IH.
    + rewrite filter_cons_True by assumption.
      rewrite Hrun, IH by assumption. simpl. f_equal.
      rewrite <- app_assoc. f_equal. simpl. unfold command.newStageStep.
      f_equal; [by rewrite Nat.add_0_r |].
      apply imap_ext. intros i t _. simpl.
      rewrite length_app. simpl. do 2 f_equal. lia.
Qed.

(** X24: creating the stage records keeps the records the stage had, and
    appends one record per step whose run policy is not "never", in the
    order of the steps and under their names; a step that never runs gets
    no record. *)
Theorem createStageSteps_records stage steps :
  drone.ID (command.createStageSteps ErrPolicy StatusPending stage steps)
  = drone.ID stage
  /\ take (length (drone.Steps stage))
       (drone.Steps (command.createStageSteps ErrPolicy StatusPending stage steps))
     = drone.Steps stage
  /\ drone.Name <$>
       drop (length (drone.Steps stage))
         (drone.Steps
            (command.createStageSteps ErrPolicy StatusPending stage steps))
     = Name <$> filter (fun s => RunPolicy s <> runtime.RunNever) steps.
Proof.
  rewrite createStageSteps_closed. simpl. repeat split.
  - by rewrite take_app_length.
  - rewrite drop_app_length, fmap_imap.
    rewrite <- (imap_const Name). by apply imap_ext.
Qed.

(** X25: every record that is created carries the stage id and the
    pending status, and its number is its position in the stage counted
    from 1, so records appended to an empty stage are numbered 1, 2, 3
    and so on without gaps, whatever steps were skipped. *)
Theorem createStageSteps_numbers stage steps (i : nat) r :
  drone.Steps (command.createStageSteps ErrPolicy StatusPending stage steps) !! i
  = Some r ->
  (length (drone.Steps stage) <= i)%nat ->
  drone.Number r = Z.of_nat i + 1
  /\ drone.StageID r = drone.ID stage
  /\ drone.Status r = StatusPending.
Proof.
  rewrite createStageSteps_closed. simpl. intros Hr Hi.
  rewrite lookup_app_r in Hr by assumption.
  rewrite list_lookup_imap in Hr.
  destruct (filter _ steps !! _) as [s|]; [| discriminate].
  simpl in Hr. injection Hr as <-. simpl. repeat split.
  do 2 f_equal. lia.
Qed.

Lemma excludeStep_name (exclude : list string) s :
  Name (command.excludeStep exclude s) = Name s.
Proof.
  unfold command.excludeStep.
  destruct (String.eqb (Name s) "clone"); [reflexivity |].
  by destruct (command.named (Name s) exclude).
Qed.

Lemma filter_fmap_names (h : Step A -> Step A) (P Q : Step A -> Prop)
  `{!forall s, Decision (P s)} `{!forall s, Decision (Q s)} steps :
  (forall s, P (h s) <-> Q s) ->
  (forall s, Name (h s) = Name s) ->
  Name <$> filter P (h <$> steps) = Name <$> filter Q steps.
Proof.
  intros HPQ Hname. induction steps as [|s rest IH]; [reflexivity |].
  rewrite fmap_cons. destruct (decide (Q s)) as [Hq|Hq].
  - rewrite (filter_cons_True Q) by assumption.
    rewrite (filter_cons_True P) by by apply HPQ.
    rewrite !fmap_cons, Hname. by f_equal.
  - rewrite (filter_cons_False Q) by assumption.
    rewrite (filter_cons_False P) by by rewrite HPQ.
    exact IH.
Qed.

(** X26: the filter and the creation of stage records together: a record
    is created exactly for the steps that could run before the filter and
    that the filter keeps, that is the steps named "clone" and the steps
    that are in the include list, when it is not empty, and not in the
    exclude list. *)
Theorem filtered_steps_get_no_record stage spec (include exclude : list string) :
  drone.Name <$>
    drop (length (drone.Steps stage))
      (drone.Steps
         (command.createStageSteps ErrPolicy StatusPending stage
            (Steps (command.filterSteps include exclude spec))))
  = Name <$>
      filter (fun s => RunPolicy s <> runtime.RunNever
                       /\ (Name s = "clone"
                           \/ ((include = [] \/ Name s ∈ include)
                               /\ Name s ∉ exclude)))
        (Steps spec).
Proof.
  rewrite createStageSteps_closed. cbn [drone.Steps drone.ID].
  rewrite drop_app_length, fmap_imap.
  rewrite (imap_ext _ (const Name)) by done.
  rewrite imap_const, filterSteps_fmap.
  apply filter_fmap_names.
  - intros s.
    destruct (decide (Name s = "clone")) as [Hclone|Hclone].
    { repeat case_decide; unfold id;
        rewrite ?(includeStep_keep include s) by (by left);
        rewrite ?(excludeStep_keep exclude s) by (by left); tauto. }
    assert (Hexc : ~ (0 < length exclude)%nat -> Name s ∉ exclude).
    { intros Hlen. destruct exclude; [apply not_elem_of_nil | simpl in Hlen; lia]. }
    assert (Hinc : ~ (0 < length include)%nat -> include = []).
    { intros Hlen. destruct include; [reflexivity | simpl in Hlen; lia]. }
    case_decide as Hel; case_decide as Hil; unfold id.
    + destruct (decide (Name s ∈ include)) as [Hin|Hin].
      * rewrite (includeStep_keep include s) by (by right).
        destruct (decide (Name s ∈ exclude)) as [Hex|Hex].
        -- rewrite excludeStep_never by assumption. simpl. tauto.
        -- rewrite excludeStep_keep by (by right). tauto.
      * rewrite includeStep_never by assumption.
        rewrite excludeStep_never_fixed. simpl.
        apply nonempty_length in Hil. tauto.
    + specialize (Hinc Hil).
      destruct (decide (Name s ∈ exclude)) as [Hex|Hex].
      * rewrite excludeStep_never by assumption. simpl. tauto.
      * rewrite excludeStep_keep by (by right). tauto.
    + specialize (Hexc Hel).
      destruct (decide (Name s ∈ include)) as [Hin|Hin].
      * rewrite (includeStep_keep include s) by (by right). tauto.
      * rewrite includeStep_never by assumption. simpl.
        apply nonempty_length in Hil. tauto.
    + specialize (Hinc Hil). specialize (Hexc Hel). tauto.
  - intros s. repeat case_decide; unfold id;
      rewrite ?excludeStep_name, ?includeStep_name; reflexivity.
Qed.

End StageStepFacts.

Lemma createStageSteps_numbers_witness :
  drone.Number (drone.mkStep 7 2 "deploy" "pending" false) = Z.of_nat 1 + 1
  /\ drone.StageID (drone.mkStep 7 2 "deploy" "pending" false)
     = drone.ID (drone.mkStage 7 [])
  /\ drone.Status (drone.mkStep 7 2 "deploy" "pending" false) = "pending".
Proof.
  apply (createStageSteps_numbers (fun _ : unit => runtime.ErrFail) "pending"
           (drone.mkStage 7 [])
           (engine.Steps
              (command.filterSteps [] ["build"; "test"] sample.pipeline))
           1%nat).
  - reflexivity.
  - simpl. lia.
Defined.

Lemma configureSerial_overwrites_dependencies_witness :
  engine.Steps (compiler.configureSerial sample.orphans) !! 1%nat
  = Some (sample.step "test" ["build"]).
Proof.
  destruct (configureSerial_overwrites_dependencies sample.orphans)
    as (_ & Hnext & _).
  exact (Hnext 0%nat (sample.step "build" ["clone"])
           (sample.step "test" ["clone"; "build"]) eq_refl eq_refl).
Defined.

Lemma configureCloneDeps_postcondition_witness :
  engine.Steps (compiler.configureCloneDeps sample.pipeline) !! 0%nat
  = Some (sample.step "clone" []).
Proof.
  destruct (configureCloneDeps_postcondition sample.pipeline)
    as (_ & Hclone & _).
  exact (Hclone 0%nat (sample.step "clone" []) eq_refl eq_refl).
Defined.

Lemma isRestrictedVariable_iff_witness :
  compiler.isRestrictedVariable (<["HOME" := None]> sample.environ) = true.
Proof.
  destruct (isRestrictedVariable_iff sample.environ) as (_ & Hnil & _).
  apply (Hnil "HOME"). unfold compiler.restrictedVars. do 4 right. left.
Defined.
